(** * Core geodesics of Dehn-filled cusps

    A shallow embedding of [kernel_code/core_geodesics.c]: the two functions
    [compute_core_geodesic] and [core_geodesic], together with the kernel
    services they call.

    Conventions of the embedding.

    - The kernel's [Real] type is a build-time choice (a [double], or a
      multi-precision class: hence the casts [(Real) (double) ...] in the
      source).  It is an interface here, the class [RealType], with two
      instances: [Exact.Q_Real], exact rational arithmetic, in which the
      general properties are proved, and [Binary64.B64_Real], IEEE 754
      binary64 as Rocq's primitive floats compute it, in which a run of
      the [double] build can be replayed.
    - [long int] values are integers of [Z], taken within the range of the
      type (the cast of a [double] outside that range is undefined).  The
      singularity index is an [int]: the [long int] that the Euclidean
      algorithm returns is narrowed to 32 bits when it is stored through
      [int *singularity_index], and it is this [int] that divides [PI]
      ([int_of_long]).
    - The two [while] loops take a bound on their number of iterations
      (fuel) and answer [OutOfFuel] when it is exhausted; [uFatalError]
      is the outcome [FatalError]. *)

From Stdlib Require Import ZArith QArith Qround Qabs Lia Lqa Bool List Floats.
Import ListNotations.

Local Open Scope Z_scope.

(** ** Outcomes of a kernel call *)

Inductive outcome (A : Type) : Type :=
| Returns (a : A)
| FatalError
| OutOfFuel.

Arguments Returns {A} a.
Arguments FatalError {A}.
Arguments OutOfFuel {A}.

Definition bind {A B : Type} (x : outcome A) (k : A -> outcome B) : outcome B :=
  match x with
  | Returns a => k a
  | FatalError => FatalError
  | OutOfFuel => OutOfFuel
  end.

Notation "x <- e ;; k" := (bind e (fun x => k))
  (at level 61, e at next level, right associativity).
Notation "' p <- e ;; k" := (bind e (fun x => match x with p => k end))
  (at level 61, p pattern, e at next level, right associativity).

(** ** The extended Euclidean algorithm (gcd.c, not part of this file) *)

(** Modelled from the spec: the loop of the kernel's [euclidean_algorithm],
    which is not in core_geodesics.c.  The spec asks for the non-negative
    greatest common divisor together with Bezout coefficients; this is the
    classical iteration on a pair of non-negative numbers [m], [n], carrying
    the coefficients that express them in the original arguments:
    current m = mm * m0 + mn * n0 and current n = nm * m0 + nn * n0.
    [m] decreases at every turn, so [S m] turns of fuel are never used up. *)
Fixpoint euclid_loop (fuel : nat) (m n mm mn nm nn : Z) : Z * Z * Z :=
  match fuel with
  | O => (0, 0, 0)
  | S fuel' =>
      if m =? 0 then (n, nm, nn)
      else
        let quotient := Z.quot n m in
        let nm := nm - quotient * mm in
        let nn := nn - quotient * mn in
        let n := n - quotient * m in
        if n =? 0 then (m, mm, mn)
        else
          let quotient := Z.quot m n in
          let mm := mm - quotient * nm in
          let mn := mn - quotient * nn in
          let m := m - quotient * n in
          euclid_loop fuel' m n mm mn nm nn
  end.

(** Modelled from the spec: [euclidean_algorithm m n &a &b] returns the
    non-negative gcd of [m] and [n] and writes Bezout coefficients with
    [a * m + b * n = gcd]; the pair (0, 0) is the degenerate case the caller
    must not invoke it with, a fatal error.  The result is the triple
    (gcd, a, b). *)
Definition euclidean_algorithm (m n : Z) : outcome (Z * Z * Z) :=
  if (m =? 0) && (n =? 0) then FatalError
  else
    let mm := if m <? 0 then -1 else 1 in
    let nn := if n <? 0 then -1 else 1 in
    Returns (euclid_loop (S (Z.abs_nat m)) (Z.abs m) (Z.abs n) mm 0 0 nn).

(** ** Machine integers *)

(** The conversion of a [long int] to [int] in the assignment
    [*singularity_index = euclidean_algorithm(...)]: the value is reduced
    modulo 2^32 into the range of a 32-bit [int], from -2^31 to 2^31 - 1. *)
Definition int_of_long (z : Z) : Z := (z + 2 ^ 31) mod 2 ^ 32 - 2 ^ 31.

(** ** Real and complex numbers *)

(** The kernel's [Real] type with the operations core_geodesics.c applies to
    it, and the two constants of that type it names: [PI] (a kernel macro)
    and [TORSION_EPSILON] (defined in the file, 1e-5). *)
Class RealType : Type := {
  Real : Type;
  real_zero : Real;                      (* 0.0 *)
  real_two : Real;                       (* 2.0 *)
  PI : Real;
  TORSION_EPSILON : Real;
  real_add : Real -> Real -> Real;
  real_sub : Real -> Real -> Real;
  real_opp : Real -> Real;
  real_mul : Real -> Real -> Real;
  real_div : Real -> Real -> Real;
  real_lt : Real -> Real -> bool;        (* x < y *)
  real_of_long : Z -> Real;              (* (Real) (double) z *)
  long_of_real : Real -> Z               (* (long int) x *)
}.

(** The kernel's enumerations. *)
Inductive CuspTopology : Type := torus_cusp | Klein_cusp | unknown_topology.

(** Index of a hyperbolic structure: [ultimate] = 0, [penultimate] = 1. *)
Inductive Snapshot : Type := ultimate | penultimate.

(** Index of a peripheral curve: [M] = 0, [L] = 1. *)
Inductive Curve : Type := M | L.

Definition is_Klein (t : CuspTopology) : bool :=
  match t with Klein_cusp => true | _ => false end.

Section Kernel.

Context {RT : RealType}.

Record Complex : Type := mkComplex { real : Real; imag : Real }.

(** Modelled from the spec: the distinguished zero complex constant. *)
Definition Zero : Complex := mkComplex real_zero real_zero.

(** Modelled from the spec: complex addition (complex.c). *)
Definition complex_plus (z0 z1 : Complex) : Complex :=
  mkComplex (real_add (real z0) (real z1)) (real_add (imag z0) (imag z1)).

(** Modelled from the spec: multiplication by a real scalar (complex.c). *)
Definition complex_real_mult (r : Real) (z : Complex) : Complex :=
  mkComplex (real_mul r (real z)) (real_mul r (imag z)).

(** Modelled from the spec: complex negation (complex.c). *)
Definition complex_negate (z : Complex) : Complex :=
  mkComplex (real_opp (real z)) (real_opp (imag z)).

(** The fields of the kernel's [Cusp] that this file reads, and [index],
    which [find_cusp] reads. *)
Record Cusp : Type := mkCusp {
  index : Z;
  topology : CuspTopology;
  is_complete : bool;
  m : Real;
  l : Real;
  holonomy : Snapshot -> Curve -> Complex
}.

Record Triangulation : Type := mkTriangulation { cusps : list Cusp }.

(** Modelled from the spec: cusp lookup by index, which fails (a fatal
    error) when no cusp of the manifold has the index. *)
Definition find_cusp (manifold : Triangulation) (cusp_index : Z) : outcome Cusp :=
  match find (fun c => index c =? cusp_index) (cusps manifold) with
  | Some c => Returns c
  | None => FatalError
  end.

(** The kernel's integrality test on a pair of filling coefficients, and its
    comparator of two complex values; both live in other files. *)
Variable coefficients_are_integers : Real -> Real -> bool.
Variable complex_decimal_places_of_accuracy : Complex -> Complex -> Z.

Definition Dehn_coefficients_are_integers (cusp : Cusp) : bool :=
  coefficients_are_integers (m cusp) (l cusp).

(** *** compute_core_geodesic, piece by piece *)

(** Lines 190-199: [length[i]] as first assigned. *)
Definition raw_length (cusp : Cusp) (positive_d negative_c : Z) (i : Snapshot) : Complex :=
  complex_plus
    (complex_real_mult (real_of_long (- negative_c)) (holonomy cusp i M))
    (complex_real_mult (real_of_long positive_d) (holonomy cusp i L)).

(** Lines 204-205: make sure the length is positive. *)
Definition fix_sign (length : Complex) : Complex :=
  if real_lt (real length) real_zero then complex_negate length else length.

(** Lines 215-216: the first normalisation loop. *)
Fixpoint raise_torsion (fuel : nat) (pi_over_n torsion : Real) : outcome Real :=
  if real_lt torsion (real_add (real_opp pi_over_n) TORSION_EPSILON) then
    match fuel with
    | O => OutOfFuel
    | S fuel' =>
        raise_torsion fuel' pi_over_n (real_add torsion (real_mul real_two pi_over_n))
    end
  else Returns torsion.

(** Lines 218-219: the second normalisation loop. *)
Fixpoint lower_torsion (fuel : nat) (pi_over_n torsion : Real) : outcome Real :=
  if real_lt (real_add pi_over_n TORSION_EPSILON) torsion then
    match fuel with
    | O => OutOfFuel
    | S fuel' =>
        lower_torsion fuel' pi_over_n (real_sub torsion (real_mul real_two pi_over_n))
    end
  else Returns torsion.

(** Lines 213-219. *)
Definition normalize_torsion (fuel : nat) (singularity_index : Z) (length : Complex)
  : outcome Complex :=
  let pi_over_n := real_div PI (real_of_long singularity_index) in
  t <- raise_torsion fuel pi_over_n (imag length) ;;
  t <- lower_torsion fuel pi_over_n t ;;
  Returns (mkComplex (real length) t).

(** Lines 229-230. *)
Definition halve_if_Klein (cusp : Cusp) (length : Complex) : Complex :=
  if is_Klein (topology cusp)
  then mkComplex (real_div (real length) real_two) (imag length)
  else length.

(** Lines 201-231: what the loop body does to [length[i]] once it is
    assigned. *)
Definition finish_length (fuel : nat) (cusp : Cusp) (singularity_index : Z)
    (length : Complex) : outcome Complex :=
  length <- normalize_torsion fuel singularity_index (fix_sign length) ;;
  Returns (halve_if_Klein cusp length).

(** The body of the [for] loop, lines 185-231. *)
Definition snapshot_length (fuel : nat) (cusp : Cusp)
    (singularity_index positive_d negative_c : Z) (i : Snapshot) : outcome Complex :=
  finish_length fuel cusp singularity_index (raw_length cusp positive_d negative_c i).

(** The array [Complex length[2]], indexed by [ultimate] and [penultimate]. *)
Definition Lengths : Type := (Complex * Complex)%type.

Definition length_at (length : Lengths) (i : Snapshot) : Complex :=
  match i with ultimate => fst length | penultimate => snd length end.

(** [compute_core_geodesic cusp &singularity_index length]: the result is
    the pair of the two outputs.  [*singularity_index] is an [int]: it
    receives the narrowed result of the Euclidean algorithm, and the loop
    body reads it back. *)
Definition compute_core_geodesic (fuel : nat) (cusp : Cusp) : outcome (Z * Lengths) :=
  if is_complete cusp || negb (Dehn_coefficients_are_integers cusp) then
    Returns (0, (Zero, Zero))
  else
    ' (gcd, positive_d, negative_c) <-
        euclidean_algorithm (long_of_real (m cusp)) (long_of_real (l cusp)) ;;
    let singularity_index := int_of_long gcd in
    length_u <- snapshot_length fuel cusp singularity_index positive_d negative_c ultimate ;;
    length_p <- snapshot_length fuel cusp singularity_index positive_d negative_c penultimate ;;
    Returns (singularity_index, (length_u, length_p)).

(** [core_geodesic manifold cusp_index &singularity_index &core_length
    precision]: [want_precision] says that the [precision] pointer is not
    NULL; the third output is what is written through it, if anything. *)
Definition core_geodesic (fuel : nat) (manifold : Triangulation) (cusp_index : Z)
    (want_precision : bool) : outcome (Z * Complex * option Z) :=
  cusp <- find_cusp manifold cusp_index ;;
  ' (singularity_index, length) <- compute_core_geodesic fuel cusp ;;
  if negb (singularity_index =? 0) then
    Returns (singularity_index,
             length_at length ultimate,
             if want_precision
             then Some (complex_decimal_places_of_accuracy
                          (length_at length ultimate) (length_at length penultimate))
             else None)
  else
    Returns (singularity_index, Zero, if want_precision then Some 0 else None).

End Kernel.

(** ** Exact arithmetic: [Real] as the rational numbers *)

Module Exact.

(** [x < y] on rationals, as a boolean. *)
Definition Q_lt (x y : Q) : bool := negb (Qle_bool y x).

(** The cast [(long int) x]: truncation toward zero. *)
Definition Q_truncate (x : Q) : Z := Z.quot (Qnum x) (Zpos (Qden x)).

(** Modelled from the spec: the macro [PI] comes from a kernel header; the
    decimal 3.14159265358979323846 stands for it, as an exact fraction.  The
    proofs use nothing of it but [0 < PI]. *)
Definition Q_PI : Q := 314159265358979323846 # 100000000000000000000.

(** Division is that of the rationals, where a quotient by 0 is 0 (a
    [double] gives an infinity there). *)
#[export] Instance Q_Real : RealType := {|
  Real := Q;
  real_zero := 0%Q;
  real_two := 2%Q;
  PI := Q_PI;
  TORSION_EPSILON := (1 # 100000)%Q;
  real_add := Qplus;
  real_sub := Qminus;
  real_opp := Qopp;
  real_mul := Qmult;
  real_div := Qdiv;
  real_lt := Q_lt;
  real_of_long := inject_Z;
  long_of_real := Q_truncate
|}.

(** Modelled from the spec: a tolerance-based integrality test.  The spec
    leaves the tolerance open; it is the parameter [tol]. *)
Definition near_integer (tol x : Q) : bool :=
  Qle_bool (Qabs (x - inject_Z (Qfloor (x + (1 # 2))))) tol.

(** Modelled from the spec: the test on a pair of filling coefficients. *)
Definition integers_within (tol m l : Q) : bool :=
  near_integer tol m && near_integer tol l.

(** The test with a tolerance of 1e-3, used in the sample runs. *)
Definition within_a_thousandth : Real -> Real -> bool :=
  integers_within (1 # 1000).

(** Equality of complex values up to the representation of fractions. *)
Definition complex_eq (z0 z1 : Complex) : Prop :=
  real z0 == real z1 /\ imag z0 == imag z1.

(** The spec's wording of the first assignment to [length[i]]:
    (-c) H(m) + d H(l). *)
Definition spec_raw_length (d c : Z) (Hm Hl : Complex) : Complex :=
  complex_plus (complex_real_mult (inject_Z (- c)) Hm)
               (complex_real_mult (inject_Z d) Hl).

(** The bounds the code compares the torsion with. *)
Definition torsion_lo (n : Z) : Q := - (Q_PI / inject_Z n) + (1 # 100000).
Definition torsion_hi (n : Z) : Q := Q_PI / inject_Z n + (1 # 100000).

(** A number of iterations that is enough for both loops on [torsion]. *)
Definition torsion_fuel (pi_over_n torsion : Q) : nat :=
  Z.to_nat (Qceiling ((Qabs torsion + (1 # 100000)) / (2 * pi_over_n))).

(** A number of iterations that is enough for both snapshots of a cusp. *)
Definition core_fuel (cusp : Cusp) : nat :=
  match euclidean_algorithm (long_of_real (m cusp)) (long_of_real (l cusp)) with
  | Returns (gcd, positive_d, negative_c) =>
      let pi_over_n := (Q_PI / inject_Z (int_of_long gcd))%Q in
      Nat.max
        (torsion_fuel pi_over_n (imag (fix_sign (raw_length cusp positive_d negative_c ultimate))))
        (torsion_fuel pi_over_n (imag (fix_sign (raw_length cusp positive_d negative_c penultimate))))
  | _ => O
  end.

(** The cusp [c] with another topology. *)
Definition with_topology (t : CuspTopology) (c : Cusp) : Cusp :=
  mkCusp (index c) t (is_complete c) (m c) (l c) (holonomy c).

(** *** Sample cusps *)

Local Open Scope Q_scope.

(** Holonomies that agree in the two snapshots. *)
Definition same_holonomy (Hm Hl : Complex) : Snapshot -> Curve -> Complex :=
  fun _ c => match c with M => Hm | L => Hl end.

(** A filled cusp of index 0. *)
Definition filled_cusp (t : CuspTopology) (m l : Q) (Hm Hl : Complex) : Cusp :=
  mkCusp 0 t false m l (same_holonomy Hm Hl).

(** The meridional filling (1, 0). *)
Definition cusp_1_0 : Cusp :=
  filled_cusp torus_cusp 1 0 (mkComplex (1 # 2) (3 # 10)) (mkComplex 1 (1 # 10)).

(** The filling (4, 0) of a Klein bottle cusp, with a negative raw length. *)
Definition cusp_4_0 : Cusp :=
  filled_cusp Klein_cusp 4 0 (mkComplex (1 # 2) (3 # 10)) (mkComplex (- 3) 2).

(** The filling (2, 3), with H(m) = 1 and H(l) = i. *)
Definition cusp_2_3 : Cusp :=
  filled_cusp torus_cusp 2 3 (mkComplex 1 0) (mkComplex 0 1).

(** The filling (1, 0) with the torsion of H(l) on the lower bound. *)
Definition cusp_at_lower_bound : Cusp :=
  filled_cusp torus_cusp 1 0 (mkComplex 0 0) (mkComplex 1 (torsion_lo 1)).

(** The coefficients (2.5, 1) are not integers. *)
Definition cusp_non_integer : Cusp :=
  filled_cusp torus_cusp (5 # 2) 1 (mkComplex (1 # 2) (3 # 10)) (mkComplex 1 (1 # 10)).

(** The coefficients (4 - 1e-6, 0) are integers within a tolerance of 1e-3. *)
Definition cusp_almost_4 : Cusp :=
  filled_cusp torus_cusp (4 - (1 # 1000000)) 0
    (mkComplex (1 # 2) (3 # 10)) (mkComplex 1 (1 # 10)).

(** A manifold with two cusps. *)
Definition two_cusps : Triangulation :=
  mkTriangulation
    [ mkCusp 0 torus_cusp true 0 0 (same_holonomy (mkComplex 0 1) (mkComplex 1 0));
      mkCusp 1 Klein_cusp false 4 0
        (same_holonomy (mkComplex (1 # 2) (3 # 10)) (mkComplex (- 3) 2)) ].

(** Modelled from the spec: a stand-in for the comparator of two complex
    values, the number of decimal places to which they agree.  It answers
    15 on values that are equal and 0 otherwise. *)
Definition coarse_places (z0 z1 : Complex) : Z :=
  if Qeq_bool (real z0) (real z1) && Qeq_bool (imag z0) (imag z1) then 15%Z else 0%Z.

(** *** Definitions for the further properties *)

(** The cusp [c] with the orientation of its peripheral curves reversed:
    every holonomy is negated. *)
Definition reverse_orientation (c : Cusp) : Cusp :=
  mkCusp (index c) (topology c) (is_complete c) (m c) (l c)
    (fun i k => complex_negate (holonomy c i k)).

(** Two outcomes of the same kind, whose results are related by [R]. *)
Definition outcome_rel {A : Type} (R : A -> A -> Prop) (x y : outcome A) : Prop :=
  match x, y with
  | Returns a, Returns b => R a b
  | FatalError, FatalError => True
  | OutOfFuel, OutOfFuel => True
  | _, _ => False
  end.

(** The same index and, in each snapshot, equal lengths. *)
Definition same_result (r0 r1 : Z * Lengths) : Prop :=
  fst r0 = fst r1
  /\ forall i : Snapshot, complex_eq (length_at (snd r0) i) (length_at (snd r1) i).

(** The filling (0, 2^31), with H(m) = -1 - 1e-5 i: the first value is
    1 + 1e-5 i. *)
Definition cusp_0_2pow31 : Cusp :=
  filled_cusp torus_cusp 0 2147483648 (mkComplex (- 1) (- (1 # 100000))) (mkComplex 0 0).

(** The coefficients (1 - 1e-6, 0) are integers within a tolerance of 1e-3. *)
Definition cusp_almost_1 : Cusp :=
  filled_cusp torus_cusp (1 - (1 # 1000000)) 0
    (mkComplex (1 # 2) (3 # 10)) (mkComplex 1 (1 # 10)).

End Exact.

(** ** IEEE 754 binary64 arithmetic: [Real] as [double] *)

Module Binary64.

(** The conversion of a [long int] to [double], rounding to nearest. *)
Definition b64_of_long (z : Z) : float :=
  SF2Prim (binary_normalize prec emax z 0 false).

(** The cast [(long int) x]: truncation toward zero of a finite value (the
    cast is undefined on infinities and NaN). *)
Definition b64_to_long (x : float) : Z :=
  match Prim2SF x with
  | S754_finite s mantissa e =>
      let a := match e with
               | Z0 => Zpos mantissa
               | Zpos k => Z.shiftl (Zpos mantissa) (Zpos k)
               | Zneg k => Z.shiftr (Zpos mantissa) (Zpos k)
               end in
      if s then - a else a
  | _ => 0
  end.

(** [PI] and [TORSION_EPSILON] are the doubles nearest to
    3.14159265358979323846 and to 1e-5. *)
Definition B64_Real : RealType := {|
  Real := float;
  real_zero := 0%float;
  real_two := 2%float;
  PI := 0x1.921fb54442d18p+1%float;
  TORSION_EPSILON := 0x1.4f8b588e368f1p-17%float;
  real_add := PrimFloat.add;
  real_sub := PrimFloat.sub;
  real_opp := PrimFloat.opp;
  real_mul := PrimFloat.mul;
  real_div := PrimFloat.div;
  real_lt := PrimFloat.ltb;
  real_of_long := b64_of_long;
  long_of_real := b64_to_long
|}.

(** Modelled from the spec: the integrality test on doubles, with tolerance
    zero: both coefficients are unchanged by the round trip through
    [long int]. *)
Definition b64_integers (m l : float) : bool :=
  PrimFloat.eqb m (b64_of_long (b64_to_long m)) &&
  PrimFloat.eqb l (b64_of_long (b64_to_long l)).

(** The filling (1, 0) with H(l) = 1 - 2^60 i in both snapshots. *)
Definition cusp_far_torsion : @Cusp B64_Real :=
  @mkCusp B64_Real 0 torus_cusp false 1%float 0%float
    (fun _ c =>
       match c with
       | M => @mkComplex B64_Real 0%float 0%float
       | L => @mkComplex B64_Real 1%float (-0x1p+60)%float
       end).

(** The filling (0, 2^32) with H(m) = -1 - 0.25 i in both snapshots. *)
Definition cusp_0_2pow32 : @Cusp B64_Real :=
  @mkCusp B64_Real 0 torus_cusp false 0%float 0x1p+32%float
    (fun _ c =>
       match c with
       | M => @mkComplex B64_Real (-1)%float (-0.25)%float
       | L => @mkComplex B64_Real 0%float 0%float
       end).

(** The filling (0, -2^31) with H(m) = 1 + NaN i in both snapshots. *)
Definition cusp_nan_torsion : @Cusp B64_Real :=
  @mkCusp B64_Real 0 torus_cusp false 0%float (-0x1p+31)%float
    (fun _ c =>
       match c with
       | M => @mkComplex B64_Real 1%float nan
       | L => @mkComplex B64_Real 0%float 0%float
       end).

End Binary64.


(** * Properties *)

(** ** The Euclidean algorithm *)

Lemma euclid_loop_spec (m0 n0 : Z) :
  forall (fuel : nat) (m n mm mn nm nn : Z),
    0 <= m < Z.of_nat fuel -> 0 <= n ->
    m = mm * m0 + mn * n0 -> n = nm * m0 + nn * n0 ->
    Z.gcd m n = Z.gcd m0 n0 ->
    exists a b : Z,
      euclid_loop fuel m n mm mn nm nn = (Z.gcd m0 n0, a, b)
      /\ a * m0 + b * n0 = Z.gcd m0 n0.
Proof.
  induction fuel as [|fuel IH]; intros m n mm mn nm nn Hm Hn Em En Hg.
  - lia.
  - cbn [euclid_loop].
    destruct (Z.eqb_spec m 0) as [Hm0|Hm0].
    + exists nm, nn. rewrite Hm0, Z.gcd_0_l_nonneg in Hg by assumption.
      rewrite <- Hg. split; [reflexivity | lia].
    + assert (Hr : n - Z.quot n m * m = Z.rem n m)
        by (rewrite Z.rem_eq by assumption; ring).
      rewrite Hr.
      pose proof (Z.rem_bound_pos n m Hn ltac:(lia)) as Hb.
      assert (Hg1 : Z.gcd m (Z.rem n m) = Z.gcd m0 n0).
      { rewrite Z.gcd_comm, Z.gcd_rem by assumption. exact Hg. }
      destruct (Z.eqb_spec (Z.rem n m) 0) as [Hr0|Hr0].
      * exists mm, mn. rewrite Hr0, Z.gcd_0_r_nonneg in Hg1 by lia.
        rewrite <- Hg1. split; [reflexivity | lia].
      * assert (Hr' : m - Z.quot m (Z.rem n m) * Z.rem n m = Z.rem m (Z.rem n m))
          by (rewrite (Z.rem_eq m) by assumption; ring).
        rewrite Hr'.
        pose proof (Z.rem_bound_pos m (Z.rem n m) ltac:(lia) ltac:(lia)) as Hb'.
        set (q := Z.quot n m) in *. set (r := Z.rem n m) in *.
        set (q' := Z.quot m r) in *. clearbody q r q'.
        apply IH.
        -- lia.
        -- lia.
        -- rewrite <- Hr', <- Hr, Em, En. ring.
        -- rewrite <- Hr, Em, En. ring.
        -- rewrite Z.gcd_rem by assumption. rewrite Z.gcd_comm. exact Hg1.
Qed.

Lemma euclidean_algorithm_spec (m n : Z) :
  m <> 0 \/ n <> 0 ->
  exists a b : Z,
    euclidean_algorithm m n = Returns (Z.gcd m n, a, b)
    /\ a * m + b * n = Z.gcd m n.
Proof.
  intros Hnz. unfold euclidean_algorithm.
  assert (Hz : (m =? 0) && (n =? 0) = false).
  { destruct (Z.eqb_spec m 0), (Z.eqb_spec n 0); cbn; try reflexivity; lia. }
  rewrite Hz.
  destruct (euclid_loop_spec m n (S (Z.abs_nat m)) (Z.abs m) (Z.abs n)
              (if m <? 0 then -1 else 1) 0 0 (if n <? 0 then -1 else 1))
    as (a & b & Hloop & Hbez).
  - rewrite Nat2Z.inj_succ, Zabs2Nat.id_abs. lia.
  - lia.
  - destruct (Z.ltb_spec m 0); lia.
  - destruct (Z.ltb_spec n 0); lia.
  - now rewrite Z.gcd_abs_l, Z.gcd_abs_r.
  - exists a, b. now rewrite Hloop.
Qed.

Lemma euclidean_algorithm_returns (m n g a b : Z) :
  euclidean_algorithm m n = Returns (g, a, b) ->
  g = Z.gcd m n /\ a * m + b * n = g /\ (m <> 0 \/ n <> 0).
Proof.
  intros H.
  assert (Hnz : m <> 0 \/ n <> 0).
  { unfold euclidean_algorithm in H.
    destruct (Z.eqb_spec m 0), (Z.eqb_spec n 0); cbn in H; try discriminate; lia. }
  destruct (euclidean_algorithm_spec m n Hnz) as (a' & b' & E & Hbez).
  rewrite E in H. injection H as <- <- <-. auto.
Qed.

Lemma euclidean_algorithm_zero :
  euclidean_algorithm 0 0 = FatalError.
Proof. reflexivity. Qed.

(** ** The narrowing of the index *)

Lemma int_of_long_small (z : Z) : - 2 ^ 31 <= z < 2 ^ 31 -> int_of_long z = z.
Proof.
  intros H. unfold int_of_long. rewrite Z.mod_small; lia.
Qed.

Lemma int_of_long_range (z : Z) : - 2 ^ 31 <= int_of_long z < 2 ^ 31.
Proof.
  unfold int_of_long.
  pose proof (Z.mod_pos_bound (z + 2 ^ 31) (2 ^ 32) ltac:(lia)). lia.
Qed.

(** ** Facts that hold for every arithmetic *)

Section KernelFacts.

Context {RT : RealType}.
Variable coefficients_are_integers : Real -> Real -> bool.
Variable complex_decimal_places_of_accuracy : Complex -> Complex -> Z.

(** Past the guard, the function is the Euclidean algorithm, the narrowing
    of its result, and the two passes of the loop. *)
Lemma compute_core_geodesic_filled (fuel : nat) (cusp : Cusp) :
  is_complete cusp = false ->
  coefficients_are_integers (m cusp) (l cusp) = true ->
  compute_core_geodesic coefficients_are_integers fuel cusp =
    (' (gcd, positive_d, negative_c) <-
        euclidean_algorithm (long_of_real (m cusp)) (long_of_real (l cusp)) ;;
     length_u <- snapshot_length fuel cusp (int_of_long gcd) positive_d negative_c
                   ultimate ;;
     length_p <- snapshot_length fuel cusp (int_of_long gcd) positive_d negative_c
                   penultimate ;;
     Returns (int_of_long gcd, (length_u, length_p))).
Proof.
  intros Hc Hi. unfold compute_core_geodesic, Dehn_coefficients_are_integers.
  now rewrite Hc, Hi.
Qed.

(** A return past the guard comes with the result of the Euclidean
    algorithm, whose narrowing is the index. *)
Lemma compute_core_geodesic_returns_index (fuel : nat) (cusp : Cusp) (n : Z)
    (length : Lengths) :
  compute_core_geodesic coefficients_are_integers fuel cusp = Returns (n, length) ->
  (n = 0 /\ length = (Zero, Zero)
   /\ (is_complete cusp = true
       \/ Dehn_coefficients_are_integers coefficients_are_integers cusp = false))
  \/ (is_complete cusp = false
      /\ coefficients_are_integers (m cusp) (l cusp) = true
      /\ exists d c : Z,
           euclidean_algorithm (long_of_real (m cusp)) (long_of_real (l cusp))
           = Returns (Z.gcd (long_of_real (m cusp)) (long_of_real (l cusp)), d, c)
           /\ 0 < Z.gcd (long_of_real (m cusp)) (long_of_real (l cusp))
           /\ n = int_of_long (Z.gcd (long_of_real (m cusp)) (long_of_real (l cusp)))
           /\ forall i : Snapshot,
                snapshot_length fuel cusp n d c i = Returns (length_at length i)).
Proof.
  unfold compute_core_geodesic, Dehn_coefficients_are_integers. intros Hrun.
  destruct (is_complete cusp); cbn [orb] in Hrun.
  { injection Hrun as <- <-. left. auto. }
  destruct (coefficients_are_integers (m cusp) (l cusp)); cbn [negb] in Hrun.
  2:{ injection Hrun as <- <-. left. auto. }
  right. split; [reflexivity | split; [reflexivity |]].
  destruct (euclidean_algorithm (long_of_real (m cusp)) (long_of_real (l cusp)))
    as [[[g a] b] | |] eqn:He; cbn [bind] in Hrun; try discriminate.
  destruct (euclidean_algorithm_returns _ _ _ _ _ He) as (Hg & _ & Hnz).
  subst g.
  destruct (snapshot_length fuel cusp _ a b ultimate) as [lu | |] eqn:Eu;
    cbn [bind] in Hrun; try discriminate.
  destruct (snapshot_length fuel cusp _ a b penultimate) as [lp | |] eqn:Ep;
    cbn [bind] in Hrun; try discriminate.
  injection Hrun as <- <-.
  exists a, b. split; [reflexivity | split; [| split; [reflexivity |]]].
  - pose proof (Z.gcd_nonneg (long_of_real (m cusp)) (long_of_real (l cusp))).
    pose proof (Z.gcd_eq_0 (long_of_real (m cusp)) (long_of_real (l cusp))).
    lia.
  - intros [|]; assumption.
Qed.

(** Neither loop ends in a fatal error. *)
Lemma raise_torsion_not_fatal (fuel : nat) (p t : Real) :
  raise_torsion fuel p t <> FatalError.
Proof.
  revert t. induction fuel as [|fuel IH]; intros t; cbn [raise_torsion];
    destruct (real_lt t _); try discriminate. apply IH.
Qed.

Lemma lower_torsion_not_fatal (fuel : nat) (p t : Real) :
  lower_torsion fuel p t <> FatalError.
Proof.
  revert t. induction fuel as [|fuel IH]; intros t; cbn [lower_torsion];
    destruct (real_lt _ t); try discriminate. apply IH.
Qed.

Lemma snapshot_length_not_fatal (fuel : nat) (cusp : Cusp) (n d c : Z) (i : Snapshot) :
  snapshot_length fuel cusp n d c i <> FatalError.
Proof.
  unfold snapshot_length, finish_length, normalize_torsion.
  destruct (raise_torsion fuel _ _) as [t | |] eqn:E1; cbn [bind]; try discriminate.
  - destruct (lower_torsion fuel _ t) as [t' | |] eqn:E2; cbn [bind]; try discriminate.
    now apply lower_torsion_not_fatal in E2.
  - now apply raise_torsion_not_fatal in E1.
Qed.

(** A torsion below the lower bound that adding 2 pi / n leaves unchanged
    stays where it is. *)
Lemma raise_torsion_stalled (p t : Real) (fuel : nat) :
  real_lt t (real_add (real_opp p) TORSION_EPSILON) = true ->
  real_add t (real_mul real_two p) = t ->
  raise_torsion fuel p t = OutOfFuel.
Proof.
  intros Hlt Hfix. induction fuel as [|fuel IH]; cbn [raise_torsion]; rewrite Hlt.
  - reflexivity.
  - now rewrite Hfix.
Qed.

Lemma lower_torsion_stalled (p t : Real) (fuel : nat) :
  real_lt (real_add p TORSION_EPSILON) t = true ->
  real_sub t (real_mul real_two p) = t ->
  lower_torsion fuel p t = OutOfFuel.
Proof.
  intros Hlt Hfix. induction fuel as [|fuel IH]; cbn [lower_torsion]; rewrite Hlt.
  - reflexivity.
  - now rewrite Hfix.
Qed.

Lemma snapshot_length_stalled (fuel : nat) (cusp : Cusp) (n d c : Z) (i : Snapshot) :
  let pi_over_n := real_div PI (real_of_long n) in
  let t := imag (fix_sign (raw_length cusp d c i)) in
  (real_lt t (real_add (real_opp pi_over_n) TORSION_EPSILON) = true
   /\ real_add t (real_mul real_two pi_over_n) = t)
  \/ (real_lt t (real_add (real_opp pi_over_n) TORSION_EPSILON) = false
      /\ real_lt (real_add pi_over_n TORSION_EPSILON) t = true
      /\ real_sub t (real_mul real_two pi_over_n) = t) ->
  snapshot_length fuel cusp n d c i = OutOfFuel.
Proof.
  intros pi_over_n t H.
  unfold snapshot_length, finish_length, normalize_torsion.
  fold pi_over_n. fold t.
  destruct H as [[Hlt Hfix] | (Hge & Hgt & Hfix)].
  - now rewrite (raise_torsion_stalled _ _ fuel Hlt Hfix).
  - assert (E : raise_torsion fuel pi_over_n t = Returns t).
    { destruct fuel; cbn [raise_torsion]; now rewrite Hge. }
    rewrite E. cbn [bind].
    now rewrite (lower_torsion_stalled _ _ fuel Hgt Hfix).
Qed.

(** C3. A complete (unfilled) cusp, and a cusp whose filling coefficients
    fail the integrality test, get singularity index 0 and the zero complex
    value for both lengths, whatever the holonomies; the call returns
    normally. *)
Theorem compute_core_geodesic_short_circuit (fuel : nat) (cusp : Cusp) :
  is_complete cusp = true
  \/ Dehn_coefficients_are_integers coefficients_are_integers cusp = false ->
  compute_core_geodesic coefficients_are_integers fuel cusp
  = Returns (0, (Zero, Zero)).
Proof.
  unfold compute_core_geodesic. intros [H | H]; rewrite H.
  - reflexivity.
  - now rewrite orb_true_r.
Qed.

(** C7. When the engine reports index 0, the wrapper returns the zero
    complex value and, when a precision is asked for, precision 0; when the
    index is not 0, it returns the length of the ultimate snapshot (and the
    comparator's answer on the two snapshots). *)
Theorem core_geodesic_packaging (fuel : nat) (manifold : Triangulation)
    (cusp_index : Z) (want_precision : bool) (cusp : Cusp) (n : Z) (length : Lengths) :
  find_cusp manifold cusp_index = Returns cusp ->
  compute_core_geodesic coefficients_are_integers fuel cusp = Returns (n, length) ->
  core_geodesic coefficients_are_integers complex_decimal_places_of_accuracy
    fuel manifold cusp_index want_precision
  = Returns
      (if n =? 0
       then (0, Zero, if want_precision then Some 0 else None)
       else (n, length_at length ultimate,
             if want_precision
             then Some (complex_decimal_places_of_accuracy
                          (length_at length ultimate) (length_at length penultimate))
             else None)).
Proof.
  intros Hfind Hcompute. unfold core_geodesic.
  rewrite Hfind. cbn [bind]. rewrite Hcompute. cbn [bind].
  destruct (Z.eqb_spec n 0) as [-> | Hn]; reflexivity.
Qed.

(** C8, with the bound that the [int] index needs. When the greatest common
    divisor of the truncated coefficients is below 2^31, the singularity
    index that [compute_core_geodesic] returns is not negative, and
    [core_geodesic] returns the same index. *)
Theorem singularity_index_nonnegative (fuel : nat) (cusp : Cusp) (n : Z)
    (length : Lengths) :
  Z.gcd (long_of_real (m cusp)) (long_of_real (l cusp)) < 2 ^ 31 ->
  compute_core_geodesic coefficients_are_integers fuel cusp = Returns (n, length) ->
  0 <= n
  /\ forall (manifold : Triangulation) (cusp_index : Z) (want_precision : bool),
       find_cusp manifold cusp_index = Returns cusp ->
       exists (core_length : Complex) (precision : option Z),
         core_geodesic coefficients_are_integers complex_decimal_places_of_accuracy
           fuel manifold cusp_index want_precision
         = Returns (n, core_length, precision).
Proof.
  intros Hbound Hcompute. split.
  - destruct (compute_core_geodesic_returns_index _ _ _ _ Hcompute)
      as [(-> & _) | (_ & _ & d & c & _ & Hpos & -> & _)]; [lia|].
    rewrite int_of_long_small; lia.
  - intros manifold cusp_index want_precision Hfind.
    unfold core_geodesic. rewrite Hfind. cbn [bind]. rewrite Hcompute. cbn [bind].
    destruct (n =? 0); cbn [negb]; eauto.
Qed.

(** X1, with the bound that the [int] index needs. When the greatest common
    divisor of the truncated coefficients is below 2^31, a returned
    singularity index is 0 exactly when the cusp is complete or its
    coefficients fail the integrality test. *)
Theorem index_zero_iff_short_circuit (fuel : nat) (cusp : Cusp) (n : Z)
    (length : Lengths) :
  Z.gcd (long_of_real (m cusp)) (long_of_real (l cusp)) < 2 ^ 31 ->
  compute_core_geodesic coefficients_are_integers fuel cusp = Returns (n, length) ->
  n = 0 <->
  is_complete cusp = true
  \/ Dehn_coefficients_are_integers coefficients_are_integers cusp = false.
Proof.
  intros Hbound Hrun.
  destruct (compute_core_geodesic_returns_index _ _ _ _ Hrun)
    as [(-> & _ & Hguard) | (Hc & Hi & d & c & _ & Hpos & -> & _)].
  - split; auto.
  - rewrite int_of_long_small by lia. split; [lia|].
    unfold Dehn_coefficients_are_integers. rewrite Hc, Hi.
    intros [H | H]; discriminate.
Qed.

(** X6. On a filled cusp that passes the integrality test, if the torsion of
    a snapshot's sign-fixed length is out of range and the correction by
    2 pi / n gives back the same value, then no number of iterations makes
    [compute_core_geodesic] return. *)
Theorem stalled_torsion_never_returns (fuel : nat) (cusp : Cusp) (n d c : Z)
    (i : Snapshot) :
  is_complete cusp = false ->
  coefficients_are_integers (m cusp) (l cusp) = true ->
  euclidean_algorithm (long_of_real (m cusp)) (long_of_real (l cusp))
  = Returns (n, d, c) ->
  let pi_over_n := real_div PI (real_of_long (int_of_long n)) in
  let t := imag (fix_sign (raw_length cusp d c i)) in
  (real_lt t (real_add (real_opp pi_over_n) TORSION_EPSILON) = true
   /\ real_add t (real_mul real_two pi_over_n) = t)
  \/ (real_lt t (real_add (real_opp pi_over_n) TORSION_EPSILON) = false
      /\ real_lt (real_add pi_over_n TORSION_EPSILON) t = true
      /\ real_sub t (real_mul real_two pi_over_n) = t) ->
  compute_core_geodesic coefficients_are_integers fuel cusp = OutOfFuel.
Proof.
  intros Hc Hi He pi_over_n t Hstall.
  rewrite compute_core_geodesic_filled by assumption.
  rewrite He. cbn [bind].
  pose proof (snapshot_length_stalled fuel cusp (int_of_long n) d c i Hstall)
    as Hi_stalled.
  destruct i.
  - now rewrite Hi_stalled.
  - destruct (snapshot_length fuel cusp (int_of_long n) d c ultimate)
      as [lu | |] eqn:Eu; cbn [bind].
    + now rewrite Hi_stalled.
    + now apply snapshot_length_not_fatal in Eu.
    + reflexivity.
Qed.

End KernelFacts.

(** ** Facts of exact arithmetic *)

Section ExactFacts.

Import Exact.

Variable coefficients_are_integers : Q -> Q -> bool.
Variable complex_decimal_places_of_accuracy : Complex -> Complex -> Z.

Local Open Scope Q_scope.

Ltac exact_ops :=
  cbn [Real real_zero real_two PI TORSION_EPSILON real_add real_sub real_opp
       real_mul real_div real_lt real_of_long long_of_real Q_Real] in *.

Lemma Q_lt_true (x y : Q) : Q_lt x y = true <-> x < y.
Proof.
  unfold Q_lt. rewrite negb_true_iff. split; intros H.
  - apply Qnot_le_lt. intros Hle. apply Qle_bool_iff in Hle. congruence.
  - destruct (Qle_bool y x) eqn:E; [|reflexivity].
    apply Qle_bool_iff in E. lra.
Qed.

Lemma Q_lt_false (x y : Q) : Q_lt x y = false <-> y <= x.
Proof.
  unfold Q_lt. rewrite negb_false_iff. apply Qle_bool_iff.
Qed.

Lemma inject_Z_succ (k : nat) :
  inject_Z (Z.of_nat (S k)) == inject_Z (Z.of_nat k) + 1.
Proof.
  rewrite Nat2Z.inj_succ. unfold Z.succ. now rewrite inject_Z_plus.
Qed.

(** The first loop stops as soon as the fuel covers the distance to the
    lower bound, above that bound; and it either leaves the torsion alone or
    ends strictly below the upper bound. *)
Lemma raise_torsion_spec (p : Q) :
  0 < p ->
  forall (fuel : nat) (t : Q),
    - p + (1 # 100000) - t <= inject_Z (Z.of_nat fuel) * (2 * p) ->
    exists t' : Q,
      raise_torsion fuel p t = Returns t'
      /\ - p + (1 # 100000) <= t'
      /\ (t' = t \/ t' < p + (1 # 100000)).
Proof.
  intros Hp. induction fuel as [|fuel IH]; intros t Hfuel.
  - cbn [raise_torsion]. exact_ops.
    destruct (Q_lt t (- p + (1 # 100000))) eqn:E.
    + apply Q_lt_true in E.
      change (inject_Z (Z.of_nat 0)) with 0 in Hfuel. lra.
    + apply Q_lt_false in E. exists t. auto.
  - cbn [raise_torsion]. exact_ops.
    destruct (Q_lt t (- p + (1 # 100000))) eqn:E.
    + apply Q_lt_true in E.
      destruct (IH (t + 2 * p)) as (t' & Hrun & Hlo & Hhi).
      * rewrite inject_Z_succ in Hfuel. lra.
      * exists t'. split; [exact Hrun | split; [exact Hlo |]].
        right. destruct Hhi as [-> | Hhi]; lra.
    + apply Q_lt_false in E. exists t. auto.
Qed.

(** The second loop, started above the lower bound, stops between the two
    bounds as soon as the fuel covers the distance to the upper bound. *)
Lemma lower_torsion_spec (p : Q) :
  0 < p ->
  forall (fuel : nat) (t : Q),
    - p + (1 # 100000) <= t ->
    t - (p + (1 # 100000)) <= inject_Z (Z.of_nat fuel) * (2 * p) ->
    exists t' : Q,
      lower_torsion fuel p t = Returns t'
      /\ - p + (1 # 100000) <= t' /\ t' <= p + (1 # 100000).
Proof.
  intros Hp. induction fuel as [|fuel IH]; intros t Hlo Hfuel.
  - cbn [lower_torsion]. exact_ops.
    destruct (Q_lt (p + (1 # 100000)) t) eqn:E.
    + apply Q_lt_true in E.
      change (inject_Z (Z.of_nat 0)) with 0 in Hfuel. lra.
    + apply Q_lt_false in E. exists t. auto.
  - cbn [lower_torsion]. exact_ops.
    destruct (Q_lt (p + (1 # 100000)) t) eqn:E.
    + apply Q_lt_true in E. apply IH.
      * lra.
      * rewrite inject_Z_succ in Hfuel. lra.
    + apply Q_lt_false in E. exists t. auto.
Qed.

Lemma PI_over_n_positive (n : Z) : (0 < n)%Z -> 0 < Q_PI / inject_Z n.
Proof.
  intros Hn. apply Qlt_shift_div_l.
  - change 0 with (inject_Z 0). now rewrite <- Zlt_Qlt.
  - rewrite Qmult_0_l. reflexivity.
Qed.

Lemma torsion_fuel_enough (p t : Q) (fuel : nat) :
  0 < p ->
  (torsion_fuel p t <= fuel)%nat ->
  Qabs t + (1 # 100000) <= inject_Z (Z.of_nat fuel) * (2 * p).
Proof.
  intros Hp Hfuel. unfold torsion_fuel in Hfuel.
  set (x := (Qabs t + (1 # 100000)) / (2 * p)) in *.
  assert (Hx : x <= inject_Z (Z.of_nat fuel)).
  { apply Qle_trans with (inject_Z (Qceiling x)); [apply Qle_ceiling|].
    rewrite <- Zle_Qle. lia. }
  assert (E : Qabs t + (1 # 100000) == x * (2 * p)).
  { unfold x. field. lra. }
  rewrite E. apply Qmult_le_compat_r; lra.
Qed.

(** Lines 213-219 in exact arithmetic: with enough fuel the two loops
    return, the real part untouched and the torsion between the bounds. *)
Lemma normalize_torsion_exact (n : Z) (z : Complex) (fuel : nat) :
  (0 < n)%Z ->
  (torsion_fuel (Q_PI / inject_Z n) (imag z) <= fuel)%nat ->
  exists t' : Q,
    normalize_torsion fuel n z = Returns (mkComplex (real z) t')
    /\ torsion_lo n <= t' /\ t' <= torsion_hi n.
Proof.
  intros Hn Hfuel.
  pose proof (PI_over_n_positive n Hn) as Hp.
  pose proof (torsion_fuel_enough _ _ _ Hp Hfuel) as Henough.
  pose proof (Qle_Qabs (imag z)) as Habs.
  pose proof (Qle_Qabs (- imag z)) as Habs'. rewrite Qabs_opp in Habs'.
  unfold normalize_torsion, torsion_lo, torsion_hi. exact_ops.
  set (p := Q_PI / inject_Z n) in *.
  destruct (raise_torsion_spec p Hp fuel (imag z)) as (t1 & Hrun1 & Hlo1 & Hhi1);
    [lra|].
  rewrite Hrun1. cbn [bind].
  destruct (lower_torsion_spec p Hp fuel t1 Hlo1) as (t2 & Hrun2 & Hlo2 & Hhi2).
  { destruct Hhi1 as [-> | Hhi1]; lra. }
  rewrite Hrun2. cbn [bind]. exists t2. auto.
Qed.

Lemma fix_sign_nonnegative (z : Complex) : 0 <= real (fix_sign z).
Proof.
  unfold fix_sign. exact_ops.
  destruct (Q_lt (real z) 0) eqn:E.
  - apply Q_lt_true in E. cbn [complex_negate real]. exact_ops. lra.
  - now apply Q_lt_false in E.
Qed.

(** Lines 201-231 in exact arithmetic. *)
Lemma finish_length_exact (cusp : Cusp) (n : Z) (z : Complex) (fuel : nat) :
  (0 < n)%Z ->
  (torsion_fuel (Q_PI / inject_Z n) (imag (fix_sign z)) <= fuel)%nat ->
  exists w : Complex,
    finish_length fuel cusp n z = Returns w
    /\ 0 <= real w /\ torsion_lo n <= imag w /\ imag w <= torsion_hi n.
Proof.
  intros Hn Hfuel. unfold finish_length.
  destruct (normalize_torsion_exact n (fix_sign z) fuel Hn Hfuel)
    as (t' & Hrun & Hlo & Hhi).
  rewrite Hrun. cbn [bind]. eexists. split; [reflexivity|].
  pose proof (fix_sign_nonnegative z) as Hre.
  unfold halve_if_Klein. destruct (is_Klein (topology cusp)); cbn [real imag].
  - exact_ops. split; [|auto]. apply Qle_shift_div_l; lra.
  - auto.
Qed.

Lemma Q_truncate_integer (x : Q) (z : Z) : x == inject_Z z -> Q_truncate x = z.
Proof.
  unfold Qeq, Q_truncate. cbn [inject_Z Qnum Qden]. intros H.
  rewrite Z.mul_1_r in H. rewrite H. apply Z.quot_mul. discriminate.
Qed.

(** The whole of [compute_core_geodesic] on a filled cusp that passes the
    integrality test and whose narrowed index is positive, in exact
    arithmetic: enough fuel gives the result. *)
Lemma compute_core_geodesic_exact (cusp : Cusp) (fuel : nat) :
  is_complete cusp = false ->
  coefficients_are_integers (m cusp) (l cusp) = true ->
  (Q_truncate (m cusp) <> 0 \/ Q_truncate (l cusp) <> 0)%Z ->
  let n := int_of_long (Z.gcd (Q_truncate (m cusp)) (Q_truncate (l cusp))) in
  (0 < n)%Z ->
  (core_fuel cusp <= fuel)%nat ->
  exists (length : Lengths) (d c : Z),
    euclidean_algorithm (Q_truncate (m cusp)) (Q_truncate (l cusp))
    = Returns (Z.gcd (Q_truncate (m cusp)) (Q_truncate (l cusp)), d, c)
    /\ compute_core_geodesic coefficients_are_integers fuel cusp = Returns (n, length)
    /\ forall i : Snapshot,
         finish_length fuel cusp n (raw_length cusp d c i)
         = Returns (length_at length i)
         /\ 0 <= real (length_at length i)
         /\ torsion_lo n <= imag (length_at length i)
         /\ imag (length_at length i) <= torsion_hi n.
Proof.
  intros Hc Hi Hnz n Hn Hfuel.
  rewrite compute_core_geodesic_filled by assumption.
  unfold core_fuel in Hfuel. exact_ops.
  destruct (euclidean_algorithm_spec _ _ Hnz) as (d & c & He & _).
  rewrite He in *. cbn [bind]. fold n in Hfuel |- *.
  unfold snapshot_length.
  destruct (finish_length_exact cusp n (raw_length cusp d c ultimate) fuel Hn)
    as (wu & Hu & Pu); [lia|].
  destruct (finish_length_exact cusp n (raw_length cusp d c penultimate) fuel Hn)
    as (wp & Hp & Pp); [lia|].
  rewrite Hu. cbn [bind]. rewrite Hp. cbn [bind].
  exists (wu, wp), d, c. split; [reflexivity | split; [reflexivity |]].
  intros [|]; cbn [length_at fst snd]; auto.
Qed.

(** Whatever the fuel, a torsion that the first loop returns is above the
    lower bound and differs from the initial one by a multiple of 2 p. *)
Lemma raise_torsion_returns (p : Q) :
  forall (fuel : nat) (t t' : Q),
    raise_torsion fuel p t = Returns t' ->
    - p + (1 # 100000) <= t'
    /\ exists k : nat, t' == t + inject_Z (Z.of_nat k) * (2 * p).
Proof.
  induction fuel as [|fuel IH]; intros t t' Hrun; cbn [raise_torsion] in Hrun;
    exact_ops; destruct (Q_lt t (- p + (1 # 100000))) eqn:E; try discriminate.
  - apply Q_lt_false in E. injection Hrun as <-. split; [exact E|].
    exists 0%nat. change (inject_Z (Z.of_nat 0)) with 0. lra.
  - destruct (IH _ _ Hrun) as (Hlo & k & Hk). split; [exact Hlo|].
    exists (S k). rewrite inject_Z_succ. lra.
  - apply Q_lt_false in E. injection Hrun as <-. split; [exact E|].
    exists 0%nat. change (inject_Z (Z.of_nat 0)) with 0. lra.
Qed.

Lemma lower_torsion_returns (p : Q) :
  forall (fuel : nat) (t t' : Q),
    lower_torsion fuel p t = Returns t' ->
    t' <= p + (1 # 100000)
    /\ (- p + (1 # 100000) <= t -> - p + (1 # 100000) <= t')
    /\ exists k : nat, t' == t - inject_Z (Z.of_nat k) * (2 * p).
Proof.
  induction fuel as [|fuel IH]; intros t t' Hrun; cbn [lower_torsion] in Hrun;
    exact_ops; destruct (Q_lt (p + (1 # 100000)) t) eqn:E; try discriminate.
  - apply Q_lt_false in E. injection Hrun as <-.
    split; [exact E | split; [auto|]].
    exists 0%nat. change (inject_Z (Z.of_nat 0)) with 0. lra.
  - apply Q_lt_true in E. destruct (IH _ _ Hrun) as (Hhi & Hlo & k & Hk).
    split; [exact Hhi | split].
    + intros _. apply Hlo. lra.
    + exists (S k). rewrite inject_Z_succ. lra.
  - apply Q_lt_false in E. injection Hrun as <-.
    split; [exact E | split; [auto|]].
    exists 0%nat. change (inject_Z (Z.of_nat 0)) with 0. lra.
Qed.

Lemma normalize_torsion_returns (n : Z) (z w : Complex) (fuel : nat) :
  normalize_torsion fuel n z = Returns w ->
  real w = real z
  /\ torsion_lo n <= imag w /\ imag w <= torsion_hi n
  /\ exists k : Z, imag w == imag z + inject_Z k * (2 * (Q_PI / inject_Z n)).
Proof.
  unfold normalize_torsion, torsion_lo, torsion_hi. exact_ops.
  set (p := Q_PI / inject_Z n). intros Hrun.
  destruct (@raise_torsion Q_Real fuel p (imag z)) as [t1 | |] eqn:E1;
    cbn [bind] in Hrun;
    try discriminate.
  destruct (@lower_torsion Q_Real fuel p t1) as [t2 | |] eqn:E2;
    cbn [bind] in Hrun;
    try discriminate.
  injection Hrun as <-. cbn [real imag].
  apply raise_torsion_returns in E1. destruct E1 as (Hlo1 & k1 & Hk1).
  apply lower_torsion_returns in E2. destruct E2 as (Hhi2 & Hlo2 & k2 & Hk2).
  split; [reflexivity | split; [auto | split; [exact Hhi2 |]]].
  exists (Z.of_nat k1 - Z.of_nat k2)%Z.
  unfold Z.sub. rewrite inject_Z_plus, inject_Z_opp. lra.
Qed.

Lemma fix_sign_real (z : Complex) : real (fix_sign z) == Qabs (real z).
Proof.
  unfold fix_sign. exact_ops. destruct (Q_lt (real z) 0) eqn:E.
  - apply Q_lt_true in E. cbn [complex_negate real]. exact_ops.
    symmetry. apply Qabs_neg. lra.
  - apply Q_lt_false in E. symmetry. now apply Qabs_pos.
Qed.

Lemma finish_length_returns (cusp : Cusp) (n : Z) (z w : Complex) (fuel : nat) :
  finish_length fuel cusp n z = Returns w ->
  real w == (if is_Klein (topology cusp) then Qabs (real z) / 2 else Qabs (real z))
  /\ 0 <= real w
  /\ torsion_lo n <= imag w /\ imag w <= torsion_hi n
  /\ exists k : Z,
       imag w == imag (fix_sign z) + inject_Z k * (2 * (Q_PI / inject_Z n)).
Proof.
  unfold finish_length. intros Hrun.
  destruct (normalize_torsion fuel n (fix_sign z)) as [v | |] eqn:E;
    cbn [bind] in Hrun; try discriminate.
  injection Hrun as <-.
  apply normalize_torsion_returns in E. destruct E as (Hre & Hlo & Hhi & Hk).
  pose proof (fix_sign_real z) as Habs. pose proof (Qabs_nonneg (real z)) as Hpos.
  unfold halve_if_Klein. destruct (is_Klein (topology cusp)); cbn [real imag];
    exact_ops; rewrite Hre.
  - split; [now rewrite Habs|]. split; [|auto].
    apply Qle_shift_div_l; lra.
  - split; [exact Habs|]. split; [lra | auto].
Qed.

(** What a return past the guard tells, whatever the fuel. *)
Lemma compute_core_geodesic_filled_returns (fuel : nat) (cusp : Cusp)
    (n d c n' : Z) (length : Lengths) :
  is_complete cusp = false ->
  coefficients_are_integers (m cusp) (l cusp) = true ->
  euclidean_algorithm (long_of_real (m cusp)) (long_of_real (l cusp))
  = Returns (n, d, c) ->
  compute_core_geodesic coefficients_are_integers fuel cusp = Returns (n', length) ->
  n' = int_of_long n
  /\ forall i : Snapshot,
       finish_length fuel cusp (int_of_long n) (raw_length cusp d c i)
       = Returns (length_at length i).
Proof.
  intros Hc Hi He Hrun.
  rewrite compute_core_geodesic_filled in Hrun by assumption.
  rewrite He in Hrun. cbn [bind] in Hrun. unfold snapshot_length in Hrun.
  destruct (finish_length fuel cusp (int_of_long n) (raw_length cusp d c ultimate))
    as [lu | |] eqn:Eu; cbn [bind] in Hrun; try discriminate.
  destruct (finish_length fuel cusp (int_of_long n) (raw_length cusp d c penultimate))
    as [lp | |] eqn:Ep; cbn [bind] in Hrun; try discriminate.
  injection Hrun as <- <-. split; [reflexivity|].
  intros [|]; assumption.
Qed.

Lemma finish_length_in_range (fuel : nat) (cusp : Cusp) (n : Z) (z : Complex) :
  is_Klein (topology cusp) = false ->
  0 <= real z -> torsion_lo n <= imag z -> imag z <= torsion_hi n ->
  finish_length fuel cusp n z = Returns z.
Proof.
  intros Hk Hre Hlo Hhi.
  unfold finish_length, normalize_torsion, halve_if_Klein, fix_sign,
    torsion_lo, torsion_hi in *.
  rewrite Hk. exact_ops.
  apply Q_lt_false in Hre. rewrite Hre.
  apply Q_lt_false in Hlo. apply Q_lt_false in Hhi.
  assert (E1 : @raise_torsion Q_Real fuel (Q_PI / inject_Z n) (imag z)
               = Returns (imag z)).
  { destruct fuel; cbn [raise_torsion]; exact_ops; now rewrite Hlo. }
  assert (E2 : @lower_torsion Q_Real fuel (Q_PI / inject_Z n) (imag z)
               = Returns (imag z)).
  { destruct fuel; cbn [lower_torsion]; exact_ops; now rewrite Hhi. }
  rewrite E1. cbn [bind]. rewrite E2. cbn [bind]. now destruct z.
Qed.

Lemma Q_truncate_below_4 (x delta : Q) :
  0 < delta <= 1 -> x == 4 - delta -> Q_truncate x = 3%Z.
Proof.
  intros [Hd0 Hd1] Ex.
  assert (H3 : 3 <= x) by lra. assert (H4 : x < 4) by lra.
  destruct x as [a b]. unfold Qle, Qlt in H3, H4. cbn in H3, H4.
  unfold Q_truncate. cbn [Qnum Qden].
  symmetry. apply Z.quot_unique with (r := (a - 3 * Zpos b)%Z); lia.
Qed.

Lemma Q_truncate_small (x : Q) : - (1) < x -> x < 1 -> Q_truncate x = 0%Z.
Proof.
  destruct x as [a b]. unfold Qlt, Q_truncate. cbn. intros H1 H2.
  apply Z.quot_small_iff; lia.
Qed.

(** *** Reversing the orientation *)

Lemma outcome_rel_bind {A B : Type} (R : A -> A -> Prop) (S : B -> B -> Prop)
    (x y : outcome A) (k k' : A -> outcome B) :
  outcome_rel R x y ->
  (forall a b : A, R a b -> outcome_rel S (k a) (k' b)) ->
  outcome_rel S (bind x k) (bind y k').
Proof.
  intros Hxy Hk. destruct x, y; cbn in *; auto; contradiction.
Qed.

Lemma Q_lt_proper (x x' y y' : Q) : x == x' -> y == y' -> Q_lt x y = Q_lt x' y'.
Proof.
  intros Hx Hy. unfold Q_lt. f_equal. now apply Qleb_comp.
Qed.

Lemma raise_torsion_proper (p : Q) :
  forall (fuel : nat) (t t' : Q),
    t == t' ->
    outcome_rel Qeq (@raise_torsion Q_Real fuel p t) (@raise_torsion Q_Real fuel p t').
Proof.
  induction fuel as [|fuel IH]; intros t t' Ht; cbn [raise_torsion]; exact_ops;
    rewrite (Q_lt_proper t t' _ _ Ht (Qeq_refl _));
    destruct (Q_lt t' (- p + (1 # 100000))); cbn; auto.
  apply IH. now rewrite Ht.
Qed.

Lemma lower_torsion_proper (p : Q) :
  forall (fuel : nat) (t t' : Q),
    t == t' ->
    outcome_rel Qeq (@lower_torsion Q_Real fuel p t) (@lower_torsion Q_Real fuel p t').
Proof.
  induction fuel as [|fuel IH]; intros t t' Ht; cbn [lower_torsion]; exact_ops;
    rewrite (Q_lt_proper _ _ t t' (Qeq_refl _) Ht);
    destruct (Q_lt (p + (1 # 100000)) t'); cbn; auto.
  apply IH. now rewrite Ht.
Qed.

Lemma finish_length_proper (fuel : nat) (cusp cusp' : Cusp) (n : Z)
    (z z' : Complex) :
  topology cusp' = topology cusp ->
  complex_eq (fix_sign z) (fix_sign z') ->
  outcome_rel complex_eq (finish_length fuel cusp n z) (finish_length fuel cusp' n z').
Proof.
  intros Ht [Hre Him]. unfold finish_length, normalize_torsion.
  apply outcome_rel_bind with (R := complex_eq).
  - apply outcome_rel_bind with (R := Qeq).
    + now apply raise_torsion_proper.
    + intros a b Hab. apply outcome_rel_bind with (R := Qeq).
      * now apply lower_torsion_proper.
      * intros a' b' Hab'. cbn. split; assumption.
  - intros a b [Hab1 Hab2]. cbn. unfold halve_if_Klein. rewrite Ht.
    destruct (is_Klein (topology cusp)); split; cbn [real imag]; exact_ops;
      try assumption.
    now rewrite Hab1.
Qed.

Lemma fix_sign_of_opposite (z z' : Complex) :
  ~ real z == 0 ->
  real z' == - real z -> imag z' == - imag z ->
  complex_eq (fix_sign z) (fix_sign z').
Proof.
  intros Hnz Hre Him. unfold fix_sign, complex_eq. exact_ops.
  destruct (Q_lt (real z) 0) eqn:E; destruct (Q_lt (real z') 0) eqn:E';
    try apply Q_lt_true in E; try apply Q_lt_false in E;
    try apply Q_lt_true in E'; try apply Q_lt_false in E';
    cbn [complex_negate real imag]; exact_ops.
  - lra.
  - split; lra.
  - split; lra.
  - exfalso. apply Hnz. lra.
Qed.

Lemma raw_length_reversed (cusp : Cusp) (d c : Z) (i : Snapshot) :
  real (raw_length (reverse_orientation cusp) d c i)
  == - real (raw_length cusp d c i)
  /\ imag (raw_length (reverse_orientation cusp) d c i)
     == - imag (raw_length cusp d c i).
Proof.
  unfold raw_length, reverse_orientation, complex_plus, complex_real_mult,
    complex_negate.
  cbn [holonomy real imag]. exact_ops. split; ring.
Qed.

Lemma gcd_positive (a b : Z) : (a <> 0 \/ b <> 0)%Z -> (0 < Z.gcd a b)%Z.
Proof.
  intros H. pose proof (Z.gcd_nonneg a b). pose proof (Z.gcd_eq_0 a b). lia.
Qed.

(** C1, with the bound that the [int] index needs. On a filled cusp whose
    coefficients are the integers (mz, lz), not both zero, with
    gcd(|mz|, |lz|) below 2^31, the singularity index is gcd(|mz|, |lz|),
    the value that the Euclidean algorithm returns on them; it is 1 for
    (1, 0) and 4 for (4, 0). *)
Theorem singularity_index_is_gcd (cusp : Cusp) (mz lz : Z) (fuel : nat) :
  is_complete cusp = false ->
  coefficients_are_integers (m cusp) (l cusp) = true ->
  m cusp == inject_Z mz -> l cusp == inject_Z lz ->
  (mz <> 0 \/ lz <> 0)%Z ->
  (Z.gcd (Z.abs mz) (Z.abs lz) < 2 ^ 31)%Z ->
  (core_fuel cusp <= fuel)%nat ->
  exists (n : Z) (length : Lengths),
    compute_core_geodesic coefficients_are_integers fuel cusp = Returns (n, length)
    /\ n = Z.gcd (Z.abs mz) (Z.abs lz)
    /\ (exists d c : Z, euclidean_algorithm mz lz = Returns (n, d, c))
    /\ ((mz, lz) = (1, 0)%Z -> n = 1%Z)
    /\ ((mz, lz) = (4, 0)%Z -> n = 4%Z).
Proof.
  intros Hc Hi Em El Hnz Hbound Hfuel.
  apply Q_truncate_integer in Em, El.
  rewrite Z.gcd_abs_l, Z.gcd_abs_r in *.
  pose proof (gcd_positive mz lz Hnz) as Hpos.
  assert (Hint : int_of_long (Z.gcd mz lz) = Z.gcd mz lz)
    by (apply int_of_long_small; lia).
  destruct (compute_core_geodesic_exact cusp fuel Hc Hi)
    as (length & d & c & He & Hrun & _);
    [rewrite Em, El; exact Hnz | rewrite Em, El, Hint; exact Hpos | exact Hfuel |].
  rewrite Em, El in Hrun, He. rewrite Hint in Hrun.
  exists (Z.gcd mz lz), length. split; [exact Hrun|].
  split; [reflexivity|]. split; [eauto|].
  split; intros [= -> ->]; reflexivity.
Qed.

(** C2, as the code has it. On a filled cusp with integer coefficients
    (mz, lz), not both zero, each snapshot's length is first assigned
    c H(m) + d H(l), for integers d and c with d mz - c lz = gcd(|mz|, |lz|);
    sign fixing, normalisation (by the [int] index) and halving are applied
    to that value. *)
Theorem raw_length_is_c_Hm_plus_d_Hl (cusp : Cusp) (mz lz : Z) :
  is_complete cusp = false ->
  coefficients_are_integers (m cusp) (l cusp) = true ->
  m cusp == inject_Z mz -> l cusp == inject_Z lz ->
  (mz <> 0 \/ lz <> 0)%Z ->
  exists d c : Z,
    (d * mz - c * lz = Z.gcd (Z.abs mz) (Z.abs lz))%Z
    /\ euclidean_algorithm mz lz = Returns (Z.gcd (Z.abs mz) (Z.abs lz), d, (- c)%Z)
    /\ forall fuel : nat,
         compute_core_geodesic coefficients_are_integers fuel cusp
         = (length_u <-
              finish_length fuel cusp (int_of_long (Z.gcd (Z.abs mz) (Z.abs lz)))
                (complex_plus
                   (complex_real_mult (inject_Z c) (holonomy cusp ultimate M))
                   (complex_real_mult (inject_Z d) (holonomy cusp ultimate L))) ;;
            length_p <-
              finish_length fuel cusp (int_of_long (Z.gcd (Z.abs mz) (Z.abs lz)))
                (complex_plus
                   (complex_real_mult (inject_Z c) (holonomy cusp penultimate M))
                   (complex_real_mult (inject_Z d) (holonomy cusp penultimate L))) ;;
            Returns (int_of_long (Z.gcd (Z.abs mz) (Z.abs lz)), (length_u, length_p))).
Proof.
  intros Hc Hi Em El Hnz.
  apply Q_truncate_integer in Em, El.
  destruct (euclidean_algorithm_spec mz lz Hnz) as (a & b & He & Hbez).
  rewrite Z.gcd_abs_l, Z.gcd_abs_r.
  exists a, (- b)%Z. rewrite Z.opp_involutive.
  split; [lia | split; [exact He |]].
  intros fuel. rewrite compute_core_geodesic_filled by assumption.
  exact_ops. rewrite Em, El, He. cbn [bind].
  unfold snapshot_length, raw_length. exact_ops. reflexivity.
Qed.

(** C4, as the code has it. On a filled cusp with integer coefficients not
    both zero and singularity index n >= 1, the torsion of each returned
    length lies in the closed interval from -pi/n + epsilon to
    pi/n + epsilon, and it is the torsion of the sign-fixed first value plus
    an integer multiple of 2 pi / n. *)
Theorem torsion_in_closed_interval (cusp : Cusp) (mz lz : Z) (fuel : nat) :
  is_complete cusp = false ->
  coefficients_are_integers (m cusp) (l cusp) = true ->
  m cusp == inject_Z mz -> l cusp == inject_Z lz ->
  (mz <> 0 \/ lz <> 0)%Z ->
  (1 <= int_of_long (Z.gcd (Z.abs mz) (Z.abs lz)))%Z ->
  (core_fuel cusp <= fuel)%nat ->
  exists (n : Z) (length : Lengths) (d c : Z),
    n = int_of_long (Z.gcd (Z.abs mz) (Z.abs lz))
    /\ euclidean_algorithm mz lz = Returns (Z.gcd (Z.abs mz) (Z.abs lz), d, c)
    /\ compute_core_geodesic coefficients_are_integers fuel cusp = Returns (n, length)
    /\ forall i : Snapshot,
         torsion_lo n <= imag (length_at length i)
         /\ imag (length_at length i) <= torsion_hi n
         /\ exists k : Z,
              imag (length_at length i)
              == imag (fix_sign (raw_length cusp d c i))
                 + inject_Z k * (2 * (Q_PI / inject_Z n)).
Proof.
  intros Hc Hi Em El Hnz Hn Hfuel.
  apply Q_truncate_integer in Em, El.
  rewrite Z.gcd_abs_l, Z.gcd_abs_r in *.
  destruct (compute_core_geodesic_exact cusp fuel Hc Hi)
    as (length & d & c & He & Hrun & Hlen);
    [rewrite Em, El; exact Hnz | rewrite Em, El; lia | exact Hfuel |].
  rewrite Em, El in Hrun, He, Hlen.
  eexists _, length, d, c.
  split; [reflexivity | split; [exact He | split; [exact Hrun |]]].
  intros i. destruct (Hlen i) as (Hfin & _ & Hlo & Hhi).
  destruct (finish_length_returns _ _ _ _ _ Hfin) as (_ & _ & _ & _ & Hk).
  auto.
Qed.

(** C5. On a filled cusp with integer coefficients not both zero, the real
    part of each returned length is not negative, the halving of a Klein
    bottle cusp included, whatever the fuel; and when the index is at least
    1, enough fuel makes the function return, with a non-zero index. *)
Theorem real_length_nonnegative (cusp : Cusp) (mz lz : Z) :
  is_complete cusp = false ->
  coefficients_are_integers (m cusp) (l cusp) = true ->
  m cusp == inject_Z mz -> l cusp == inject_Z lz ->
  (mz <> 0 \/ lz <> 0)%Z ->
  (forall (fuel : nat) (n : Z) (length : Lengths),
     compute_core_geodesic coefficients_are_integers fuel cusp = Returns (n, length) ->
     forall i : Snapshot, 0 <= real (length_at length i))
  /\ (forall fuel : nat,
        (1 <= int_of_long (Z.gcd (Z.abs mz) (Z.abs lz)))%Z ->
        (core_fuel cusp <= fuel)%nat ->
        exists (n : Z) (length : Lengths),
          compute_core_geodesic coefficients_are_integers fuel cusp
          = Returns (n, length)
          /\ n <> 0%Z
          /\ forall i : Snapshot, 0 <= real (length_at length i)).
Proof.
  intros Hc Hi Em El Hnz.
  apply Q_truncate_integer in Em, El.
  rewrite Z.gcd_abs_l, Z.gcd_abs_r.
  split.
  - intros fuel n length Hrun i.
    destruct (euclidean_algorithm_spec _ _ Hnz) as (d & c & He & _).
    rewrite <- Em, <- El in He.
    destruct (compute_core_geodesic_filled_returns _ _ _ _ _ _ _ Hc Hi He Hrun)
      as (_ & Hlen).
    now destruct (finish_length_returns _ _ _ _ _ (Hlen i)) as (_ & Hre & _).
  - intros fuel Hn Hfuel.
    destruct (compute_core_geodesic_exact cusp fuel Hc Hi)
      as (length & d & c & _ & Hrun & Hlen);
      [rewrite Em, El; exact Hnz | rewrite Em, El; lia | exact Hfuel |].
    rewrite Em, El in Hrun.
    eexists _, length. split; [exact Hrun|]. split; [lia|].
    intros i. now destruct (Hlen i) as (_ & Hre & _).
Qed.

(** C9, in exact arithmetic and with the index that the code divides by. On
    a filled cusp with integer coefficients not both zero whose [int]
    singularity index is at least 1, the normalisation loops terminate:
    given [core_fuel cusp] iterations or more, [compute_core_geodesic]
    returns. *)
Theorem normalization_terminates_exactly (cusp : Cusp) (mz lz : Z) (fuel : nat) :
  is_complete cusp = false ->
  coefficients_are_integers (m cusp) (l cusp) = true ->
  m cusp == inject_Z mz -> l cusp == inject_Z lz ->
  (mz <> 0 \/ lz <> 0)%Z ->
  (1 <= int_of_long (Z.gcd (Z.abs mz) (Z.abs lz)))%Z ->
  (core_fuel cusp <= fuel)%nat ->
  exists result : Z * Lengths,
    compute_core_geodesic coefficients_are_integers fuel cusp = Returns result.
Proof.
  intros Hc Hi Em El Hnz Hn Hfuel.
  apply Q_truncate_integer in Em, El.
  rewrite Z.gcd_abs_l, Z.gcd_abs_r in Hn.
  destruct (compute_core_geodesic_exact cusp fuel Hc Hi)
    as (length & d & c & _ & Hrun & _);
    [rewrite Em, El; exact Hnz | rewrite Em, El; lia | exact Hfuel |].
  eauto.
Qed.

(** C6. A cusp given the Klein bottle topology and the same cusp given the
    torus topology have the same outcome; when they return, the index is the
    same, each real length of the Klein bottle cusp is half that of the
    torus cusp, and the torsions are equal. *)
Theorem Klein_bottle_halving (c : Cusp) (fuel : nat) :
  match compute_core_geodesic coefficients_are_integers fuel (with_topology torus_cusp c),
        compute_core_geodesic coefficients_are_integers fuel (with_topology Klein_cusp c)
  with
  | Returns (n_torus, length_torus), Returns (n_Klein, length_Klein) =>
      n_Klein = n_torus
      /\ forall i : Snapshot,
           real (length_at length_Klein i) == real (length_at length_torus i) / 2
           /\ imag (length_at length_Klein i) = imag (length_at length_torus i)
  | FatalError, FatalError => True
  | OutOfFuel, OutOfFuel => True
  | _, _ => False
  end.
Proof.
  unfold compute_core_geodesic, Dehn_coefficients_are_integers.
  cbn [with_topology is_complete m l].
  destruct (is_complete c || negb (coefficients_are_integers (m c) (l c))).
  - split; [reflexivity|]. intros [|]; cbn; split; reflexivity.
  - destruct (euclidean_algorithm (long_of_real (m c)) (long_of_real (l c)))
      as [[[n d] e] | |]; cbn [bind]; try exact I.
    unfold snapshot_length, finish_length, raw_length.
    cbn [with_topology holonomy].
    destruct (normalize_torsion fuel (int_of_long n) (fix_sign _)) as [wu | |];
      cbn [bind]; try exact I.
    destruct (normalize_torsion fuel (int_of_long n) (fix_sign _)) as [wp | |];
      cbn [bind]; try exact I.
    split; [reflexivity|].
    intros [|]; cbn; split; reflexivity.
Qed.

(** C10. The integers given to the Euclidean algorithm are the filling
    coefficients truncated toward zero; a coefficient 4 - delta, with
    0 < delta <= 1, that passes the integrality test is used as 3, and with
    l = 0 the index is 3. *)
Theorem coefficients_are_truncated (cusp : Cusp) :
  is_complete cusp = false ->
  coefficients_are_integers (m cusp) (l cusp) = true ->
  (forall fuel : nat,
     compute_core_geodesic coefficients_are_integers fuel cusp
     = (' (gcd, positive_d, negative_c) <-
          euclidean_algorithm
            (Z.quot (Qnum (m cusp)) (Zpos (Qden (m cusp))))
            (Z.quot (Qnum (l cusp)) (Zpos (Qden (l cusp)))) ;;
        length_u <- snapshot_length fuel cusp (int_of_long gcd) positive_d negative_c
                      ultimate ;;
        length_p <- snapshot_length fuel cusp (int_of_long gcd) positive_d negative_c
                      penultimate ;;
        Returns (int_of_long gcd, (length_u, length_p))))
  /\ (forall delta : Q,
        0 < delta <= 1 -> m cusp == 4 - delta -> l cusp == 0 ->
        long_of_real (m cusp) = 3%Z
        /\ forall fuel : nat, (core_fuel cusp <= fuel)%nat ->
             exists length : Lengths,
               compute_core_geodesic coefficients_are_integers fuel cusp
               = Returns (3%Z, length)).
Proof.
  intros Hc Hi. split.
  - intros fuel. now rewrite compute_core_geodesic_filled.
  - intros delta Hd Em El.
    pose proof (Q_truncate_below_4 _ _ Hd Em) as Tm.
    pose proof (Q_truncate_integer (l cusp) 0 El) as Tl.
    split; [exact Tm|]. intros fuel Hfuel.
    destruct (compute_core_geodesic_exact cusp fuel Hc Hi)
      as (length & d & c & _ & Hrun & _);
      [rewrite Tm; left; discriminate | rewrite Tm, Tl; reflexivity | exact Hfuel |].
    rewrite Tm, Tl in Hrun. exists length. exact Hrun.
Qed.

(** X2. On a filled cusp whose coefficients pass the integrality test and
    both lie strictly between -1 and 1, both casts give 0, the Euclidean
    algorithm is called on (0, 0), and the call ends in its fatal error
    whatever the fuel. *)
Theorem coefficients_below_one_are_fatal (fuel : nat) (cusp : Cusp) :
  is_complete cusp = false ->
  coefficients_are_integers (m cusp) (l cusp) = true ->
  - (1) < m cusp -> m cusp < 1 -> - (1) < l cusp -> l cusp < 1 ->
  long_of_real (m cusp) = 0%Z /\ long_of_real (l cusp) = 0%Z
  /\ compute_core_geodesic coefficients_are_integers fuel cusp = FatalError.
Proof.
  intros Hc Hi Hm1 Hm2 Hl1 Hl2.
  pose proof (Q_truncate_small _ Hm1 Hm2) as Tm.
  pose proof (Q_truncate_small _ Hl1 Hl2) as Tl.
  split; [exact Tm | split; [exact Tl |]].
  rewrite compute_core_geodesic_filled by assumption.
  exact_ops. rewrite Tm, Tl. reflexivity.
Qed.

(** X3. On a filled cusp that passes the integrality test, whenever the
    function returns, the real part of each length is the absolute value of
    the real part of the value first assigned, divided by 2 on a Klein
    bottle cusp: the loops never change it. *)
Theorem real_length_is_absolute_value (fuel : nat) (cusp : Cusp)
    (n d c n' : Z) (length : Lengths) :
  is_complete cusp = false ->
  coefficients_are_integers (m cusp) (l cusp) = true ->
  euclidean_algorithm (long_of_real (m cusp)) (long_of_real (l cusp))
  = Returns (n, d, c) ->
  compute_core_geodesic coefficients_are_integers fuel cusp = Returns (n', length) ->
  forall i : Snapshot,
    real (length_at length i)
    == (if is_Klein (topology cusp)
        then Qabs (real (raw_length cusp d c i)) / 2
        else Qabs (real (raw_length cusp d c i))).
Proof.
  intros Hc Hi He Hrun i.
  destruct (compute_core_geodesic_filled_returns _ _ _ _ _ _ _ Hc Hi He Hrun)
    as (_ & Hlen).
  now destruct (finish_length_returns _ _ _ _ _ (Hlen i)) as (Hre & _).
Qed.

(** X4. On a filled cusp that passes the integrality test, whenever the
    function returns, the torsion of each length differs from the torsion
    of the sign-fixed first value by an integer multiple of 2 pi / n, n the
    [int] index. *)
Theorem torsion_changes_by_multiples (fuel : nat) (cusp : Cusp)
    (n d c n' : Z) (length : Lengths) :
  is_complete cusp = false ->
  coefficients_are_integers (m cusp) (l cusp) = true ->
  euclidean_algorithm (long_of_real (m cusp)) (long_of_real (l cusp))
  = Returns (n, d, c) ->
  compute_core_geodesic coefficients_are_integers fuel cusp = Returns (n', length) ->
  forall i : Snapshot,
    exists k : Z,
      imag (length_at length i)
      == (if Q_lt (real (raw_length cusp d c i)) 0
          then - imag (raw_length cusp d c i)
          else imag (raw_length cusp d c i))
         + inject_Z k * (2 * (Q_PI / inject_Z (int_of_long n))).
Proof.
  intros Hc Hi He Hrun i.
  destruct (compute_core_geodesic_filled_returns _ _ _ _ _ _ _ Hc Hi He Hrun)
    as (_ & Hlen).
  destruct (finish_length_returns _ _ _ _ _ (Hlen i)) as (_ & _ & _ & _ & k & Hk).
  exists k. rewrite Hk. unfold fix_sign. exact_ops.
  destruct (Q_lt (real (raw_length cusp d c i)) 0); reflexivity.
Qed.

(** X5. On a filled torus cusp that passes the integrality test, first
    values that already have a non-negative real part and a torsion between
    the two bounds are returned as they are, with no iteration of either
    loop. *)
Theorem normalized_length_is_returned_unchanged (fuel : nat) (cusp : Cusp)
    (n d c : Z) :
  is_complete cusp = false ->
  coefficients_are_integers (m cusp) (l cusp) = true ->
  euclidean_algorithm (long_of_real (m cusp)) (long_of_real (l cusp))
  = Returns (n, d, c) ->
  is_Klein (topology cusp) = false ->
  (forall i : Snapshot,
     0 <= real (raw_length cusp d c i)
     /\ torsion_lo (int_of_long n) <= imag (raw_length cusp d c i)
     /\ imag (raw_length cusp d c i) <= torsion_hi (int_of_long n)) ->
  compute_core_geodesic coefficients_are_integers fuel cusp
  = Returns (int_of_long n,
             (raw_length cusp d c ultimate, raw_length cusp d c penultimate)).
Proof.
  intros Hc Hi He Hk Hraw.
  rewrite compute_core_geodesic_filled by assumption.
  rewrite He. cbn [bind]. unfold snapshot_length.
  destruct (Hraw ultimate) as (Hu1 & Hu2 & Hu3).
  destruct (Hraw penultimate) as (Hp1 & Hp2 & Hp3).
  rewrite !finish_length_in_range by assumption. reflexivity.
Qed.

(** X7. Whenever [core_geodesic] returns, the index is within the range of
    an [int] and the core length has a non-negative real part; with index 0
    the length is zero and a requested precision is 0; with another index
    the torsion of the core length lies between the two bounds; and no
    precision is written when none is requested. *)
Theorem core_geodesic_result_invariants (fuel : nat) (manifold : Triangulation)
    (cusp_index : Z) (want_precision : bool) (n : Z) (core_length : Complex)
    (precision : option Z) :
  core_geodesic coefficients_are_integers complex_decimal_places_of_accuracy
    fuel manifold cusp_index want_precision
  = Returns (n, core_length, precision) ->
  (- 2 ^ 31 <= n < 2 ^ 31)%Z
  /\ 0 <= real core_length
  /\ (n = 0%Z ->
      core_length = Zero
      /\ precision = (if want_precision then Some 0%Z else None))
  /\ (n <> 0%Z ->
      torsion_lo n <= imag core_length /\ imag core_length <= torsion_hi n)
  /\ (want_precision = false -> precision = None).
Proof.
  unfold core_geodesic. intros Hrun.
  destruct (find_cusp manifold cusp_index) as [cusp | |]; cbn [bind] in Hrun;
    try discriminate.
  destruct (@compute_core_geodesic Q_Real coefficients_are_integers fuel cusp)
    as [[n0 length] | |] eqn:Ec; cbn [bind] in Hrun; try discriminate.
  apply compute_core_geodesic_returns_index in Ec.
  destruct (Z.eqb_spec n0 0) as [E0 | E0]; cbn [negb] in Hrun;
    injection Hrun as <- <- <-.
  - subst n0. split; [lia|]. split; [cbn; lra|].
    split; [auto|]. split; [intros H; now destruct H|].
    now intros ->.
  - destruct Ec as [(E & _) | (_ & _ & d & c & _ & _ & Hn & Hlen)]; [contradiction|].
    unfold snapshot_length in Hlen.
    destruct (finish_length_returns _ _ _ _ _ (Hlen ultimate))
      as (_ & Hre & Hlo & Hhi & _).
    split; [rewrite Hn; apply int_of_long_range|]. split; [exact Hre|].
    split; [intros; contradiction|]. split; [auto|].
    now intros ->.
Qed.

(** X8. Reversing the orientation of the peripheral curves, which negates
    every holonomy, does not change the result on a filled cusp that passes
    the integrality test, as long as no first value has real part zero: the
    outcome is of the same kind, with the same index and equal lengths. *)
Theorem orientation_reversal_invariance (fuel : nat) (cusp : Cusp) (n d c : Z) :
  is_complete cusp = false ->
  coefficients_are_integers (m cusp) (l cusp) = true ->
  euclidean_algorithm (long_of_real (m cusp)) (long_of_real (l cusp))
  = Returns (n, d, c) ->
  (forall i : Snapshot, ~ real (raw_length cusp d c i) == 0) ->
  outcome_rel same_result
    (compute_core_geodesic coefficients_are_integers fuel cusp)
    (compute_core_geodesic coefficients_are_integers fuel (reverse_orientation cusp)).
Proof.
  intros Hc Hi He Hnz.
  rewrite !compute_core_geodesic_filled by assumption.
  cbn [reverse_orientation m l]. rewrite He. cbn [bind].
  assert (Hfin : forall i : Snapshot,
             outcome_rel complex_eq
               (snapshot_length fuel cusp (int_of_long n) d c i)
               (snapshot_length fuel
                  (mkCusp (index cusp) (topology cusp) (is_complete cusp)
                     (m cusp) (l cusp)
                     (fun i k => complex_negate (holonomy cusp i k)))
                  (int_of_long n) d c i)).
  { intros i. unfold snapshot_length. apply finish_length_proper; [reflexivity|].
    destruct (raw_length_reversed cusp d c i) as [Hre Him].
    now apply fix_sign_of_opposite. }
  apply outcome_rel_bind with (R := complex_eq); [apply Hfin|].
  intros lu lu' Hu.
  apply outcome_rel_bind with (R := complex_eq); [apply Hfin|].
  intros lp lp' Hp. cbn. split; [reflexivity|].
  intros [|]; assumption.
Qed.

(** With a negative index the two bounds are crossed, and no torsion stops
    both loops. *)
Lemma negative_index_never_returns (fuel : nat) (cusp : Cusp) (n d c : Z)
    (result : Z * Lengths) :
  is_complete cusp = false ->
  coefficients_are_integers (m cusp) (l cusp) = true ->
  euclidean_algorithm (long_of_real (m cusp)) (long_of_real (l cusp))
  = Returns (n, d, c) ->
  (int_of_long n < 0)%Z ->
  compute_core_geodesic coefficients_are_integers fuel cusp <> Returns result.
Proof.
  intros Hc Hi He Hneg Hrun. destruct result as [n' length].
  destruct (compute_core_geodesic_filled_returns _ _ _ _ _ _ _ Hc Hi He Hrun)
    as (_ & Hlen).
  destruct (finish_length_returns _ _ _ _ _ (Hlen ultimate))
    as (_ & _ & Hlo & Hhi & _).
  unfold torsion_lo, torsion_hi in Hlo, Hhi.
  pose proof (PI_over_n_positive (- int_of_long n) ltac:(lia)) as Hpos.
  assert (Hk : inject_Z (int_of_long n) < 0).
  { change 0 with (inject_Z 0). now rewrite <- Zlt_Qlt. }
  assert (E : Q_PI / inject_Z (int_of_long n)
              == - (Q_PI / inject_Z (- int_of_long n))).
  { rewrite inject_Z_opp. field. lra. }
  rewrite E in Hlo, Hhi. lra.
Qed.

End ExactFacts.

(** ** Facts of binary64 arithmetic *)

Section Binary64Facts.

Import Binary64.

Local Existing Instance B64_Real.

(** At -2^60 the spacing of doubles is 256: adding 2 pi changes nothing,
    and the first loop makes no progress. *)
Lemma raise_torsion_stalls (fuel : nat) :
  raise_torsion (RT := B64_Real) fuel (real_div PI (real_of_long 1)) (-0x1p+60)%float
  = OutOfFuel.
Proof.
  induction fuel as [|fuel IH].
  - reflexivity.
  - cbn [raise_torsion].
    change (@real_lt B64_Real (-0x1p+60)%float
              (real_add (real_opp (real_div PI (real_of_long 1))) TORSION_EPSILON))
      with true.
    change (@real_add B64_Real (-0x1p+60)%float
              (real_mul real_two (real_div PI (real_of_long 1))))
      with (-0x1p+60)%float.
    exact IH.
Qed.

Lemma far_torsion_out_of_fuel (fuel : nat) :
  @compute_core_geodesic B64_Real b64_integers fuel cusp_far_torsion = OutOfFuel.
Proof.
  unfold compute_core_geodesic.
  change (is_complete cusp_far_torsion
          || negb (@Dehn_coefficients_are_integers B64_Real b64_integers
                     cusp_far_torsion))
    with false.
  change (euclidean_algorithm (long_of_real (m cusp_far_torsion))
            (long_of_real (l cusp_far_torsion)))
    with (Returns (1, 1, 0)).
  cbn [bind]. change (int_of_long 1) with 1%Z.
  unfold snapshot_length, finish_length, normalize_torsion.
  change (imag (fix_sign (raw_length cusp_far_torsion 1 0 ultimate)))
    with (-0x1p+60)%float.
  rewrite raise_torsion_stalls. reflexivity.
Qed.

End Binary64Facts.

(** ** Sample runs *)

Import Exact.

Local Open Scope Q_scope.

(** C3 on the non-integer coefficients (2.5, 1). *)
Lemma compute_core_geodesic_short_circuit_witness :
  compute_core_geodesic within_a_thousandth 0 cusp_non_integer
  = Returns (0%Z, (Zero, Zero)).
Proof.
  apply (compute_core_geodesic_short_circuit within_a_thousandth 0
           cusp_non_integer).
  right. reflexivity.
Defined.

(** C7 on a manifold whose cusp 0 is complete and whose cusp 1 is filled. *)
Lemma core_geodesic_packaging_witness :
  core_geodesic within_a_thousandth coarse_places 0 two_cusps 0 true
  = Returns (0%Z, Zero, Some 0%Z).
Proof.
  exact (core_geodesic_packaging within_a_thousandth coarse_places
           0 two_cusps 0 true
           (mkCusp 0 torus_cusp true 0 0 (same_holonomy (mkComplex 0 1) (mkComplex 1 0)))
           0 (Zero, Zero) eq_refl eq_refl).
Defined.

(** C8 on the filling (4, 0). *)
Lemma singularity_index_nonnegative_witness : (0 <= 4)%Z.
Proof.
  refine (proj1 (singularity_index_nonnegative within_a_thousandth
                   coarse_places 2 cusp_4_0 4 _ _ _)).
  - reflexivity.
  - vm_compute. reflexivity.
Defined.

(** C8 as stated fails in binary64 arithmetic on the filling (0, -2^31)
    with H(m) = 1 + NaN i: the gcd 2^31 is narrowed to the [int] -2^31, the
    loops stop at once on a NaN, and the function returns the index
    -2147483648. *)
Lemma index_wraps_to_negative :
  @is_complete Binary64.B64_Real Binary64.cusp_nan_torsion = false
  /\ @long_of_real Binary64.B64_Real (m Binary64.cusp_nan_torsion) = 0%Z
  /\ @long_of_real Binary64.B64_Real (l Binary64.cusp_nan_torsion) = (-2147483648)%Z
  /\ @Dehn_coefficients_are_integers Binary64.B64_Real Binary64.b64_integers
       Binary64.cusp_nan_torsion = true
  /\ @compute_core_geodesic Binary64.B64_Real Binary64.b64_integers 0
       Binary64.cusp_nan_torsion
     = Returns ((-2147483648)%Z,
                (@mkComplex Binary64.B64_Real 1%float nan,
                 @mkComplex Binary64.B64_Real 1%float nan))
  /\ ~ (0 <= -2147483648)%Z.
Proof.
  repeat (split; [reflexivity|]). lia.
Qed.

(** C1 on the fillings (1, 0) and (4, 0). *)
Lemma singularity_index_is_gcd_witness :
  (exists length : Lengths,
     compute_core_geodesic within_a_thousandth 1 cusp_1_0
     = Returns (1%Z, length))
  /\ (exists length : Lengths,
        compute_core_geodesic within_a_thousandth 2 cusp_4_0
        = Returns (4%Z, length)).
Proof.
  split.
  - destruct (singularity_index_is_gcd within_a_thousandth cusp_1_0 1 0 1)
      as (n & length & Hrun & Hn & _ & H10 & _);
      [reflexivity | reflexivity | reflexivity | reflexivity | left; discriminate
      | reflexivity | vm_compute; lia |].
    rewrite (H10 eq_refl) in Hrun. exists length. exact Hrun.
  - destruct (singularity_index_is_gcd within_a_thousandth cusp_4_0 4 0 2)
      as (n & length & Hrun & Hn & _ & _ & H40);
      [reflexivity | reflexivity | reflexivity | reflexivity | left; discriminate
      | reflexivity | vm_compute; lia |].
    rewrite (H40 eq_refl) in Hrun. exists length. exact Hrun.
Defined.

(** C1 as stated fails in binary64 arithmetic on the filling (0, 2^32):
    the gcd 2^32 is narrowed to the [int] 0, pi / 0 is an infinity, neither
    loop runs, and the function returns the index 0 with non-zero
    lengths. *)
Lemma index_wraps_to_zero :
  @is_complete Binary64.B64_Real Binary64.cusp_0_2pow32 = false
  /\ @long_of_real Binary64.B64_Real (m Binary64.cusp_0_2pow32) = 0%Z
  /\ @long_of_real Binary64.B64_Real (l Binary64.cusp_0_2pow32) = 4294967296%Z
  /\ @Dehn_coefficients_are_integers Binary64.B64_Real Binary64.b64_integers
       Binary64.cusp_0_2pow32 = true
  /\ Z.gcd (Z.abs 0) (Z.abs 4294967296) = 4294967296%Z
  /\ @compute_core_geodesic Binary64.B64_Real Binary64.b64_integers 0
       Binary64.cusp_0_2pow32
     = Returns (0%Z, (@mkComplex Binary64.B64_Real 1%float 0.25%float,
                      @mkComplex Binary64.B64_Real 1%float 0.25%float)).
Proof.
  repeat (split; [reflexivity|]). reflexivity.
Qed.

(** C2 as stated fails on the filling (2, 3) with H(m) = 1, H(l) = i: the
    algorithm returns (1, -1, 1), the length is first assigned -1 - i, and
    no integers d, c with 2 d - 3 c = 1 make (-c) H(m) + d H(l) that
    value. *)
Lemma raw_length_is_not_minus_c_Hm_plus_d_Hl :
  euclidean_algorithm (long_of_real (m cusp_2_3)) (long_of_real (l cusp_2_3))
  = Returns (1, -1, 1)%Z
  /\ complex_eq (raw_length cusp_2_3 (-1) 1 ultimate) (mkComplex (- 1) (- 1))
  /\ ~ exists d c : Z,
         (d * 2 - c * 3 = Z.gcd (Z.abs 2) (Z.abs 3))%Z
         /\ complex_eq (raw_length cusp_2_3 (-1) 1 ultimate)
              (spec_raw_length d c (holonomy cusp_2_3 ultimate M)
                 (holonomy cusp_2_3 ultimate L)).
Proof.
  split; [reflexivity|]. split; [split; reflexivity|].
  intros (d & c & Hbez & Hre & Him).
  unfold Qeq in Hre, Him. cbn in Hre, Him, Hbez. lia.
Qed.

(** C2, as the code has it, on the filling (2, 3). *)
Lemma raw_length_is_c_Hm_plus_d_Hl_witness :
  exists d c : Z,
    (d * 2 - c * 3 = 1)%Z
    /\ euclidean_algorithm 2 3 = Returns (1%Z, d, (- c)%Z).
Proof.
  destruct (raw_length_is_c_Hm_plus_d_Hl within_a_thousandth cusp_2_3 2 3)
    as (d & c & Hbez & He & _);
    [reflexivity | reflexivity | reflexivity | reflexivity | left; discriminate |].
  exists d, c. split; [exact Hbez | exact He].
Defined.

(** C4 as stated fails on the filling (1, 0) whose H(l) has torsion
    -pi + epsilon: neither loop runs, and the returned torsion is the lower
    bound itself, which the half-open interval leaves out. *)
Lemma torsion_on_the_lower_bound :
  exists length : Lengths,
    compute_core_geodesic within_a_thousandth 0 cusp_at_lower_bound
    = Returns (1%Z, length)
    /\ imag (length_at length ultimate) == torsion_lo 1
    /\ ~ (torsion_lo 1 < imag (length_at length ultimate)
          /\ imag (length_at length ultimate) <= torsion_hi 1).
Proof.
  eexists. split; [vm_compute; reflexivity|].
  split; [vm_compute; reflexivity|].
  intros [H _]. vm_compute in H. discriminate.
Qed.

(** C4, as the code has it, on the filling (4, 0). *)
Lemma torsion_in_closed_interval_witness :
  exists (n : Z) (length : Lengths) (d c : Z),
    n = int_of_long (Z.gcd (Z.abs 4) (Z.abs 0))
    /\ euclidean_algorithm 4 0 = Returns (Z.gcd (Z.abs 4) (Z.abs 0), d, c)
    /\ compute_core_geodesic within_a_thousandth 2 cusp_4_0
       = Returns (n, length)
    /\ forall i : Snapshot,
         torsion_lo n <= imag (length_at length i)
         /\ imag (length_at length i) <= torsion_hi n
         /\ exists k : Z,
              imag (length_at length i)
              == imag (fix_sign (raw_length cusp_4_0 d c i))
                 + inject_Z k * (2 * (Q_PI / inject_Z n)).
Proof.
  apply (torsion_in_closed_interval within_a_thousandth cusp_4_0 4 0 2);
    [reflexivity | reflexivity | reflexivity | reflexivity | left; discriminate
    | vm_compute; discriminate | vm_compute; lia].
Defined.

(** C5 on the filling (4, 0) of a Klein bottle cusp, whose raw length has
    real part -3. *)
Lemma real_length_nonnegative_witness :
  exists (n : Z) (length : Lengths),
    compute_core_geodesic within_a_thousandth 2 cusp_4_0
    = Returns (n, length)
    /\ n <> 0%Z
    /\ forall i : Snapshot, 0 <= real (length_at length i).
Proof.
  destruct (real_length_nonnegative within_a_thousandth cusp_4_0 4 0)
    as [_ Hreturns];
    [reflexivity | reflexivity | reflexivity | reflexivity | left; discriminate |].
  apply Hreturns; [vm_compute; discriminate | vm_compute; lia].
Defined.

(** C9 as stated fails twice. In binary64 arithmetic, on the filling (1, 0)
    with H(l) = 1 - 2^60 i, a finite value, the first loop never exits.  And
    in exact arithmetic, on the filling (0, 2^31) with a first value
    1 + 1e-5 i, the index is the [int] -2^31, pi / n is negative, and no
    number of iterations makes the function return. *)
Lemma normalization_does_not_terminate :
  (@is_complete Binary64.B64_Real Binary64.cusp_far_torsion = false
   /\ @long_of_real Binary64.B64_Real (m Binary64.cusp_far_torsion) = 1%Z
   /\ @long_of_real Binary64.B64_Real (l Binary64.cusp_far_torsion) = 0%Z
   /\ @Dehn_coefficients_are_integers Binary64.B64_Real Binary64.b64_integers
        Binary64.cusp_far_torsion = true
   /\ ~ exists (fuel : nat) (result : Z * Lengths),
          @compute_core_geodesic Binary64.B64_Real Binary64.b64_integers fuel
            Binary64.cusp_far_torsion
          = Returns result)
  /\ (is_complete cusp_0_2pow31 = false
      /\ m cusp_0_2pow31 == inject_Z 0 /\ l cusp_0_2pow31 == inject_Z 2147483648
      /\ Dehn_coefficients_are_integers within_a_thousandth cusp_0_2pow31 = true
      /\ int_of_long (Z.gcd (Z.abs 0) (Z.abs 2147483648)) = (-2147483648)%Z
      /\ ~ exists (fuel : nat) (result : Z * Lengths),
             compute_core_geodesic within_a_thousandth fuel cusp_0_2pow31
             = Returns result).
Proof.
  split.
  - repeat (split; [reflexivity|]).
    intros (fuel & result & H).
    rewrite far_torsion_out_of_fuel in H. discriminate.
  - repeat (split; [reflexivity|]).
    intros (fuel & result & H). revert H.
    apply (negative_index_never_returns within_a_thousandth fuel cusp_0_2pow31
             2147483648 0 1); reflexivity.
Qed.

(** C9, in exact arithmetic, on the filling (4, 0). *)
Lemma normalization_terminates_exactly_witness :
  exists result : Z * Lengths,
    compute_core_geodesic within_a_thousandth 2 cusp_4_0 = Returns result.
Proof.
  apply (normalization_terminates_exactly within_a_thousandth cusp_4_0 4 0 2);
    [reflexivity | reflexivity | reflexivity | reflexivity | left; discriminate
    | vm_compute; discriminate | vm_compute; lia].
Defined.

(** C10 on the coefficients (4 - 1e-6, 0), integers within 1e-3. *)
Lemma coefficients_are_truncated_witness :
  long_of_real (m cusp_almost_4) = 3%Z
  /\ exists length : Lengths,
       compute_core_geodesic within_a_thousandth 1 cusp_almost_4
       = Returns (3%Z, length).
Proof.
  destruct (proj2 (coefficients_are_truncated within_a_thousandth
                     cusp_almost_4 eq_refl eq_refl)
              (1 # 1000000)) as (Ht & Hrun);
    [split; [reflexivity | discriminate] | reflexivity | reflexivity |].
  split; [exact Ht|]. apply Hrun. vm_compute. lia.
Defined.

(** ** Sample runs of the further properties *)

(** X1 on the filling (4, 0): the index 4 is not 0, and the cusp is filled
    with integer coefficients. *)
Lemma index_zero_iff_short_circuit_witness :
  4%Z = 0%Z <->
  is_complete cusp_4_0 = true
  \/ Dehn_coefficients_are_integers within_a_thousandth cusp_4_0 = false.
Proof.
  eapply (index_zero_iff_short_circuit within_a_thousandth 2 cusp_4_0 4).
  - reflexivity.
  - vm_compute. reflexivity.
Defined.

(** X2 on the coefficients (1 - 1e-6, 0). *)
Lemma coefficients_below_one_are_fatal_witness :
  long_of_real (m cusp_almost_1) = 0%Z /\ long_of_real (l cusp_almost_1) = 0%Z
  /\ compute_core_geodesic within_a_thousandth 5 cusp_almost_1 = FatalError.
Proof.
  apply (coefficients_below_one_are_fatal within_a_thousandth 5 cusp_almost_1);
    reflexivity.
Defined.

(** X3 on the filling (4, 0) of a Klein bottle cusp, whose first value has
    real part -3: the real length is 3 / 2. *)
Lemma real_length_is_absolute_value_witness :
  exists length : Lengths,
    compute_core_geodesic within_a_thousandth 2 cusp_4_0 = Returns (4%Z, length)
    /\ forall i : Snapshot, real (length_at length i) == 3 # 2.
Proof.
  assert (Hrun : exists length : Lengths,
             compute_core_geodesic within_a_thousandth 2 cusp_4_0
             = Returns (4%Z, length))
    by (eexists; vm_compute; reflexivity).
  destruct Hrun as (length & Hrun). exists length. split; [exact Hrun|].
  intros i.
  rewrite (real_length_is_absolute_value within_a_thousandth 2 cusp_4_0 4 1 0 4
             length eq_refl eq_refl eq_refl Hrun i).
  reflexivity.
Defined.

(** X4 on the filling (4, 0): the first value -3 + 2i is negated, and the
    torsion -2 is raised once by pi / 2. *)
Lemma torsion_changes_by_multiples_witness :
  exists length : Lengths,
    compute_core_geodesic within_a_thousandth 2 cusp_4_0 = Returns (4%Z, length)
    /\ forall i : Snapshot,
         exists k : Z,
           imag (length_at length i) == - (2) + inject_Z k * (2 * (Q_PI / 4)).
Proof.
  assert (Hrun : exists length : Lengths,
             compute_core_geodesic within_a_thousandth 2 cusp_4_0
             = Returns (4%Z, length))
    by (eexists; vm_compute; reflexivity).
  destruct Hrun as (length & Hrun). exists length. split; [exact Hrun|].
  intros i.
  destruct (torsion_changes_by_multiples within_a_thousandth 2 cusp_4_0 4 1 0 4
              length eq_refl eq_refl eq_refl Hrun i) as (k & Hk).
  exists k. rewrite Hk. apply Qplus_comp; [vm_compute|]; reflexivity.
Defined.

(** X5 on the filling (1, 0) with H(l) = 1 + 0.1 i. *)
Lemma normalized_length_is_returned_unchanged_witness :
  compute_core_geodesic within_a_thousandth 0 cusp_1_0
  = Returns (1%Z, (raw_length cusp_1_0 1 0 ultimate,
                   raw_length cusp_1_0 1 0 penultimate)).
Proof.
  apply (normalized_length_is_returned_unchanged within_a_thousandth 0 cusp_1_0 1 1 0);
    try reflexivity.
  intros i; destruct i; vm_compute; repeat split; discriminate.
Defined.

(** X6 in binary64 arithmetic, on the filling (1, 0) with H(l) = 1 - 2^60 i. *)
Lemma stalled_torsion_never_returns_witness :
  @compute_core_geodesic Binary64.B64_Real Binary64.b64_integers 1000
    Binary64.cusp_far_torsion
  = OutOfFuel.
Proof.
  apply (@stalled_torsion_never_returns Binary64.B64_Real Binary64.b64_integers
           1000 Binary64.cusp_far_torsion 1 1 0 ultimate);
    try reflexivity.
  left. split; reflexivity.
Defined.

(** X7 on the filled cusp 1 of the sample manifold. *)
Lemma core_geodesic_result_invariants_witness :
  exists (core_length : Complex) (precision : option Z),
    core_geodesic within_a_thousandth coarse_places 2 two_cusps 1 true
    = Returns (4%Z, core_length, precision)
    /\ 0 <= real core_length
    /\ torsion_lo 4 <= imag core_length /\ imag core_length <= torsion_hi 4.
Proof.
  assert (Hrun : exists (core_length : Complex) (precision : option Z),
             core_geodesic within_a_thousandth coarse_places 2 two_cusps 1 true
             = Returns (4%Z, core_length, precision))
    by (eexists; eexists; vm_compute; reflexivity).
  destruct Hrun as (core_length & precision & Hrun).
  exists core_length, precision. split; [exact Hrun|].
  destruct (core_geodesic_result_invariants within_a_thousandth coarse_places
              2 two_cusps 1 true 4 core_length precision Hrun)
    as (_ & Hre & _ & Htorsion & _).
  split; [exact Hre|]. apply Htorsion. discriminate.
Defined.

(** X8 on the filling (4, 0), whose first values have real part -3. *)
Lemma orientation_reversal_invariance_witness :
  outcome_rel same_result
    (compute_core_geodesic within_a_thousandth 2 cusp_4_0)
    (compute_core_geodesic within_a_thousandth 2 (reverse_orientation cusp_4_0)).
Proof.
  apply (orientation_reversal_invariance within_a_thousandth 2 cusp_4_0 4 1 0);
    try reflexivity.
  intros i; destruct i; vm_compute; discriminate.
Defined.
